(** * Torzela onion-layer primitives: a shallow embedding of [TorzelaUtils.py]

    The Python module wraps four services of the [cryptography] package
    (Diffie-Hellman key agreement, HKDF-SHA256, AES in CBC mode with PKCS#7
    padding, PEM serialisation of public keys) and adds the onion-layer codec
    on top of them.  The embedding keeps that layering:

    - Part I models the values of the Python run time that the module
      touches: byte strings, text strings, exceptions, [str.split],
      [int(...)], the UTF-8 codec;
    - Part II models the library services by their standards (FIPS 197,
      FIPS 180-4, RFC 2104, RFC 5869, PKCS#3, RFC 4648, X.690, RFC 7468);
    - Part III is the translation of the functions of [TorzelaUtils.py],
      statement by statement;
    - Part IV holds the lemmas about Parts I to III;
    - Part V states and proves the properties that the specification
      claims, C1 to C10. *)

From Stdlib Require Import String Ascii DecimalString.
From Stdlib.Strings Require Import Byte.
From Stdlib Require Import NArith ZArith List Bool Lia Btauto.
Import ListNotations.

Local Open Scope N_scope.

(* ================================================================== *)
(** * Part I. Python run-time values                                   *)
(* ================================================================== *)

(** ** Exceptions and the result of a call *)

(** The exception classes that the modelled code paths can raise.  The
    payload is the message of the exception where Python gives a fixed one. *)
Inductive exn : Type :=
| ValueError (msg : string)
| AttributeError (msg : string)
| UnicodeDecodeError
| UnicodeEncodeError.

(** A call either returns a value or raises. *)
Inductive result (A : Type) : Type :=
| Ok (a : A)
| Raise (e : exn).
Arguments Ok {A} a.
Arguments Raise {A} e.

Definition bind {A B : Type} (r : result A) (k : A -> result B) : result B :=
  match r with
  | Ok a => k a
  | Raise e => Raise e
  end.

Declare Scope py_scope.
Delimit Scope py_scope with py.
Notation "x <- c ;; k" := (bind c (fun x => k))
  (at level 61, c at next level, right associativity) : py_scope.
Notation "' pat <- c ;; k" := (bind c (fun x => match x with pat => k end))
  (at level 61, pat pattern, c at next level, right associativity) : py_scope.
Local Open Scope py_scope.

Definition returns {A : Type} (r : result A) : Prop := exists a, r = Ok a.
Definition raises {A : Type} (r : result A) : Prop := exists e, r = Raise e.

(** ** Byte strings *)

(** [bytes] objects are lists of octets. *)
Definition bytes : Type := list byte.

Definition byte_of_N (n : N) : byte :=
  match Byte.of_N (n mod 256) with
  | Some b => b
  | None => x00
  end.

Definition N_of_byte (b : byte) : N := Byte.to_N b.

(** Bitwise exclusive or of two octets, least significant bit first. *)
Definition bxor (a b : byte) : byte :=
  let '(a0, (a1, (a2, (a3, (a4, (a5, (a6, a7))))))) := Byte.to_bits a in
  let '(b0, (b1, (b2, (b3, (b4, (b5, (b6, b7))))))) := Byte.to_bits b in
  Byte.of_bits (xorb a0 b0, (xorb a1 b1, (xorb a2 b2, (xorb a3 b3,
               (xorb a4 b4, (xorb a5 b5, (xorb a6 b6, xorb a7 b7))))))).

(** Big-endian value of a byte string, and the big-endian digits of a
    number ([int.to_bytes] without a length: no leading zero octet, the empty
    string for zero). *)
Definition be_value (bs : bytes) : N :=
  fold_left (fun acc b => acc * 256 + N_of_byte b) bs 0.

Fixpoint be_digits_from (fuel : nat) (n : N) (acc : bytes) : bytes :=
  match fuel with
  | O => acc
  | S fuel' =>
      if n =? 0 then acc
      else be_digits_from fuel' (n / 256) (byte_of_N n :: acc)
  end.

Definition be_digits (n : N) : bytes :=
  be_digits_from (N.to_nat (N.size n)) n [].

(** [n.to_bytes(len, 'big')] for a number that fits: left padded with zero
    octets. *)
Definition be_bytes (len : nat) (n : N) : bytes :=
  let d := be_digits n in
  repeat x00 (len - length d) ++ d.

(** ** Text strings *)

(** A [str] object is a sequence of Unicode code points. *)
Definition pystr : Type := list N.

Definition str (s : string) : pystr :=
  map N_of_ascii (list_ascii_of_string s).

Definition is_surrogate (c : N) : bool := (0xD800 <=? c) && (c <=? 0xDFFF).

(** The UTF-8 encoder of [str.encode()].  Lone surrogates are refused, as
    CPython does under the default [strict] handler. *)
Definition utf8_encode_char (c : N) : result bytes :=
  if c <? 0x80 then Ok [byte_of_N c]
  else if c <? 0x800 then
    Ok [byte_of_N (0xC0 + c / 64); byte_of_N (0x80 + c mod 64)]
  else if c <? 0x10000 then
    if is_surrogate c then Raise UnicodeEncodeError
    else Ok [byte_of_N (0xE0 + c / 4096);
             byte_of_N (0x80 + (c / 64) mod 64);
             byte_of_N (0x80 + c mod 64)]
  else if c <? 0x110000 then
    Ok [byte_of_N (0xF0 + c / 262144);
        byte_of_N (0x80 + (c / 4096) mod 64);
        byte_of_N (0x80 + (c / 64) mod 64);
        byte_of_N (0x80 + c mod 64)]
  else Raise UnicodeEncodeError.

Fixpoint utf8_encode (s : pystr) : result bytes :=
  match s with
  | [] => Ok []
  | c :: s' =>
      b <- utf8_encode_char c ;;
      bs <- utf8_encode s' ;;
      Ok (b ++ bs)
  end.

Definition is_cont (b : byte) : bool :=
  let n := N_of_byte b in (0x80 <=? n) && (n <? 0xC0).

Definition cont_bits (b : byte) : N := N_of_byte b mod 64.

(** The strict UTF-8 decoder of [bytes.decode()]: shortest form only, no
    surrogates, nothing above U+10FFFF. *)
Fixpoint utf8_decode (bs : bytes) : result pystr :=
  match bs with
  | [] => Ok []
  | b0 :: r0 =>
      let n0 := N_of_byte b0 in
      if n0 <? 0x80 then
        s <- utf8_decode r0 ;; Ok (n0 :: s)
      else if n0 <? 0xC0 then Raise UnicodeDecodeError
      else if n0 <? 0xE0 then
        match r0 with
        | b1 :: r1 =>
            let c := (n0 mod 32) * 64 + cont_bits b1 in
            if is_cont b1 && (0x80 <=? c) then
              s <- utf8_decode r1 ;; Ok (c :: s)
            else Raise UnicodeDecodeError
        | _ => Raise UnicodeDecodeError
        end
      else if n0 <? 0xF0 then
        match r0 with
        | b1 :: b2 :: r2 =>
            let c := (n0 mod 16) * 4096 + cont_bits b1 * 64 + cont_bits b2 in
            if is_cont b1 && is_cont b2 && (0x800 <=? c)
               && negb (is_surrogate c) then
              s <- utf8_decode r2 ;; Ok (c :: s)
            else Raise UnicodeDecodeError
        | _ => Raise UnicodeDecodeError
        end
      else if n0 <? 0xF8 then
        match r0 with
        | b1 :: b2 :: b3 :: r3 =>
            let c := (n0 mod 8) * 262144 + cont_bits b1 * 4096
                     + cont_bits b2 * 64 + cont_bits b3 in
            if is_cont b1 && is_cont b2 && is_cont b3
               && (0x10000 <=? c) && (c <? 0x110000) then
              s <- utf8_decode r3 ;; Ok (c :: s)
            else Raise UnicodeDecodeError
        | _ => Raise UnicodeDecodeError
        end
      else Raise UnicodeDecodeError
  end.

(** Python looks a method up on the run-time class of the receiver: [bytes]
    has [decode] and no [encode], [str] has [encode] and no [decode]. *)
Inductive pyobj : Type :=
| PyStr (s : pystr)
| PyBytes (b : bytes).

Definition no_decode : exn :=
  AttributeError "'str' object has no attribute 'decode'".
Definition no_encode : exn :=
  AttributeError "'bytes' object has no attribute 'encode'".

Definition decode (o : pyobj) : result pystr :=
  match o with
  | PyBytes b => utf8_decode b
  | PyStr _ => Raise no_decode
  end.

Definition encode (o : pyobj) : result bytes :=
  match o with
  | PyStr s => utf8_encode s
  | PyBytes _ => Raise no_encode
  end.

(** ** [str.split(sep, maxsplit=k)] and tuple unpacking *)

(** The text before and after the first occurrence of [sep], if any. *)
Fixpoint partition_at (sep : N) (s : pystr) : option (pystr * pystr) :=
  match s with
  | [] => None
  | c :: s' =>
      if c =? sep then Some ([], s')
      else match partition_at sep s' with
           | Some (pre, post) => Some (c :: pre, post)
           | None => None
           end
  end.

(** [s.split(sep, maxsplit=k)] for a one-character separator: at most [k]
    cuts, from the left; the last piece keeps every later separator. *)
Fixpoint split (sep : N) (maxsplit : nat) (s : pystr) : list pystr :=
  match maxsplit with
  | O => [s]
  | S k =>
      match partition_at sep s with
      | Some (pre, post) => pre :: split sep k post
      | None => [s]
      end
  end.

Definition hash : N := 0x23.

(** [a, b = xs] and [a, b, c = xs]: the right-hand side must have exactly as
    many items as there are targets. *)
Definition unpack2 {A : Type} (xs : list A) : result (A * A) :=
  match xs with
  | [a; b] => Ok (a, b)
  | [] | [_] => Raise (ValueError "not enough values to unpack")
  | _ => Raise (ValueError "too many values to unpack")
  end.

Definition unpack3 {A : Type} (xs : list A) : result (A * A * A) :=
  match xs with
  | [a; b; c] => Ok (a, b, c)
  | [] | [_] | [_; _] => Raise (ValueError "not enough values to unpack")
  | _ => Raise (ValueError "too many values to unpack")
  end.

(** ** [int(s)] for a text argument *)

(** Code points above U+007F for which [str.isspace()] holds. *)
Definition unicode_spaces : list N :=
  [0x85; 0xa0; 0x1680; 0x2000; 0x2001; 0x2002; 0x2003; 0x2004; 0x2005;
   0x2006; 0x2007; 0x2008; 0x2009; 0x200a; 0x2028; 0x2029; 0x202f; 0x205f;
   0x3000].

(** The digit zero of every decimal-digit block of Unicode 14; the nine
    other digits of a block follow its zero. *)
Definition decimal_zeros : list N :=
  [0x30; 0x660; 0x6f0; 0x7c0; 0x966; 0x9e6; 0xa66; 0xae6;
   0xb66; 0xbe6; 0xc66; 0xce6; 0xd66; 0xde6; 0xe50; 0xed0;
   0xf20; 0x1040; 0x1090; 0x17e0; 0x1810; 0x1946; 0x19d0; 0x1a80;
   0x1a90; 0x1b50; 0x1bb0; 0x1c40; 0x1c50; 0xa620; 0xa8d0; 0xa900;
   0xa9d0; 0xa9f0; 0xaa50; 0xabf0; 0xff10; 0x104a0; 0x10d30; 0x11066;
   0x110f0; 0x11136; 0x111d0; 0x112f0; 0x11450; 0x114d0; 0x11650; 0x116c0;
   0x11730; 0x118e0; 0x11950; 0x11c50; 0x11d50; 0x11da0; 0x16a60; 0x16ac0;
   0x16b50; 0x1d7ce; 0x1d7d8; 0x1d7e2; 0x1d7ec; 0x1d7f6; 0x1e140; 0x1e2f0;
   0x1e950; 0x1fbf0].

Definition decimal_value (c : N) : option N :=
  match find (fun z => (z <=? c) && (c <? z + 10)) decimal_zeros with
  | Some z => Some (c - z)
  | None => None
  end.

(** CPython first rewrites the text to ASCII: a non-ASCII space becomes a
    blank, a non-ASCII decimal digit its ASCII digit, anything else ['?']. *)
Definition to_ascii_decimal (c : N) : N :=
  if c <? 127 then c
  else if existsb (N.eqb c) unicode_spaces then 0x20
  else match decimal_value c with
       | Some d => 0x30 + d
       | None => 0x3F
       end.

Definition is_ascii_space (c : N) : bool :=
  (c =? 0x20) || ((0x09 <=? c) && (c <=? 0x0d)).

Definition is_digit (c : N) : bool := (0x30 <=? c) && (c <=? 0x39).

Definition underscore : N := 0x5F.

Fixpoint skip_spaces (s : pystr) : pystr :=
  match s with
  | c :: s' => if is_ascii_space c then skip_spaces s' else s
  | [] => []
  end.

(** The digits of the literal: single underscores are allowed between
    digits only.  Returns the value, the number of digits and the text that
    follows. *)
Fixpoint scan_digits (s : pystr) (prev : N) (acc : N) (count : nat)
  : option (N * nat * pystr) :=
  match s with
  | c :: s' =>
      if is_digit c then scan_digits s' c (acc * 10 + (c - 0x30)) (S count)
      else if c =? underscore then
        if prev =? underscore then None else scan_digits s' c acc count
      else if prev =? underscore then None
      else Some (acc, count, s)
  | [] => if prev =? underscore then None else Some (acc, count, [])
  end.

Definition int_error : exn :=
  ValueError "invalid literal for int() with base 10".

Definition py_int (s : pystr) : result Z :=
  let t := skip_spaces (map to_ascii_decimal s) in
  let '(negative, t) :=
    match t with
    | 0x2D :: t' => (true, t')
    | 0x2B :: t' => (false, t')
    | _ => (false, t)
    end in
  match t with
  | 0x5F :: _ => Raise int_error
  | _ =>
      match scan_digits t 0 0 0 with
      | Some (v, S _, rest) =>
          match skip_spaces rest with
          | [] => Ok (if negative then (- Z.of_N v)%Z else Z.of_N v)
          | _ => Raise int_error
          end
      | _ => Raise int_error
      end
  end.

(* ================================================================== *)
(** * Part II. The services of the [cryptography] package              *)
(* ================================================================== *)

(** ** AES (FIPS 197) *)

Module AES.

(** A word is a column of four octets, a block is four columns. *)
Definition word : Type := (byte * byte * byte * byte)%type.
Definition block : Type := (word * word * word * word)%type.

Definition zero_word : word := (x00, x00, x00, x00).

Definition wxor (u v : word) : word :=
  let '(a, b, c, d) := u in
  let '(e, f, g, h) := v in
  (bxor a e, bxor b f, bxor c g, bxor d h).

Definition block_xor (s t : block) : block :=
  let '(a, b, c, d) := s in
  let '(e, f, g, h) := t in
  (wxor a e, wxor b f, wxor c g, wxor d h).

(** Multiplication by [x] in GF(2^8) modulo [x^8 + x^4 + x^3 + x + 1]:
    shift left, and add [0x1b] when the high bit falls out. *)
Definition xtime (a : byte) : byte :=
  let '(a0, (a1, (a2, (a3, (a4, (a5, (a6, a7))))))) := Byte.to_bits a in
  Byte.of_bits (a7, (xorb a0 a7, (a1, (xorb a2 a7,
               (xorb a3 a7, (a4, (a5, a6))))))).

Definition mul2 (a : byte) : byte := xtime a.
Definition mul3 (a : byte) : byte := bxor (xtime a) a.
Definition mul4 (a : byte) : byte := xtime (xtime a).
Definition mul8 (a : byte) : byte := xtime (xtime (xtime a)).
Definition mul9 (a : byte) : byte := bxor (mul8 a) a.
Definition mul11 (a : byte) : byte := bxor (bxor (mul8 a) (mul2 a)) a.
Definition mul13 (a : byte) : byte := bxor (bxor (mul8 a) (mul4 a)) a.
Definition mul14 (a : byte) : byte := bxor (bxor (mul8 a) (mul4 a)) (mul2 a).

Definition sbox_table : list byte := Eval vm_compute in map byte_of_N
 [0x63; 0x7c; 0x77; 0x7b; 0xf2; 0x6b; 0x6f; 0xc5; 0x30; 0x01; 0x67; 0x2b; 0xfe; 0xd7; 0xab; 0x76;
  0xca; 0x82; 0xc9; 0x7d; 0xfa; 0x59; 0x47; 0xf0; 0xad; 0xd4; 0xa2; 0xaf; 0x9c; 0xa4; 0x72; 0xc0;
  0xb7; 0xfd; 0x93; 0x26; 0x36; 0x3f; 0xf7; 0xcc; 0x34; 0xa5; 0xe5; 0xf1; 0x71; 0xd8; 0x31; 0x15;
  0x04; 0xc7; 0x23; 0xc3; 0x18; 0x96; 0x05; 0x9a; 0x07; 0x12; 0x80; 0xe2; 0xeb; 0x27; 0xb2; 0x75;
  0x09; 0x83; 0x2c; 0x1a; 0x1b; 0x6e; 0x5a; 0xa0; 0x52; 0x3b; 0xd6; 0xb3; 0x29; 0xe3; 0x2f; 0x84;
  0x53; 0xd1; 0x00; 0xed; 0x20; 0xfc; 0xb1; 0x5b; 0x6a; 0xcb; 0xbe; 0x39; 0x4a; 0x4c; 0x58; 0xcf;
  0xd0; 0xef; 0xaa; 0xfb; 0x43; 0x4d; 0x33; 0x85; 0x45; 0xf9; 0x02; 0x7f; 0x50; 0x3c; 0x9f; 0xa8;
  0x51; 0xa3; 0x40; 0x8f; 0x92; 0x9d; 0x38; 0xf5; 0xbc; 0xb6; 0xda; 0x21; 0x10; 0xff; 0xf3; 0xd2;
  0xcd; 0x0c; 0x13; 0xec; 0x5f; 0x97; 0x44; 0x17; 0xc4; 0xa7; 0x7e; 0x3d; 0x64; 0x5d; 0x19; 0x73;
  0x60; 0x81; 0x4f; 0xdc; 0x22; 0x2a; 0x90; 0x88; 0x46; 0xee; 0xb8; 0x14; 0xde; 0x5e; 0x0b; 0xdb;
  0xe0; 0x32; 0x3a; 0x0a; 0x49; 0x06; 0x24; 0x5c; 0xc2; 0xd3; 0xac; 0x62; 0x91; 0x95; 0xe4; 0x79;
  0xe7; 0xc8; 0x37; 0x6d; 0x8d; 0xd5; 0x4e; 0xa9; 0x6c; 0x56; 0xf4; 0xea; 0x65; 0x7a; 0xae; 0x08;
  0xba; 0x78; 0x25; 0x2e; 0x1c; 0xa6; 0xb4; 0xc6; 0xe8; 0xdd; 0x74; 0x1f; 0x4b; 0xbd; 0x8b; 0x8a;
  0x70; 0x3e; 0xb5; 0x66; 0x48; 0x03; 0xf6; 0x0e; 0x61; 0x35; 0x57; 0xb9; 0x86; 0xc1; 0x1d; 0x9e;
  0xe1; 0xf8; 0x98; 0x11; 0x69; 0xd9; 0x8e; 0x94; 0x9b; 0x1e; 0x87; 0xe9; 0xce; 0x55; 0x28; 0xdf;
  0x8c; 0xa1; 0x89; 0x0d; 0xbf; 0xe6; 0x42; 0x68; 0x41; 0x99; 0x2d; 0x0f; 0xb0; 0x54; 0xbb; 0x16].

Definition inv_sbox_table : list byte := Eval vm_compute in map byte_of_N
 [0x52; 0x09; 0x6a; 0xd5; 0x30; 0x36; 0xa5; 0x38; 0xbf; 0x40; 0xa3; 0x9e; 0x81; 0xf3; 0xd7; 0xfb;
  0x7c; 0xe3; 0x39; 0x82; 0x9b; 0x2f; 0xff; 0x87; 0x34; 0x8e; 0x43; 0x44; 0xc4; 0xde; 0xe9; 0xcb;
  0x54; 0x7b; 0x94; 0x32; 0xa6; 0xc2; 0x23; 0x3d; 0xee; 0x4c; 0x95; 0x0b; 0x42; 0xfa; 0xc3; 0x4e;
  0x08; 0x2e; 0xa1; 0x66; 0x28; 0xd9; 0x24; 0xb2; 0x76; 0x5b; 0xa2; 0x49; 0x6d; 0x8b; 0xd1; 0x25;
  0x72; 0xf8; 0xf6; 0x64; 0x86; 0x68; 0x98; 0x16; 0xd4; 0xa4; 0x5c; 0xcc; 0x5d; 0x65; 0xb6; 0x92;
  0x6c; 0x70; 0x48; 0x50; 0xfd; 0xed; 0xb9; 0xda; 0x5e; 0x15; 0x46; 0x57; 0xa7; 0x8d; 0x9d; 0x84;
  0x90; 0xd8; 0xab; 0x00; 0x8c; 0xbc; 0xd3; 0x0a; 0xf7; 0xe4; 0x58; 0x05; 0xb8; 0xb3; 0x45; 0x06;
  0xd0; 0x2c; 0x1e; 0x8f; 0xca; 0x3f; 0x0f; 0x02; 0xc1; 0xaf; 0xbd; 0x03; 0x01; 0x13; 0x8a; 0x6b;
  0x3a; 0x91; 0x11; 0x41; 0x4f; 0x67; 0xdc; 0xea; 0x97; 0xf2; 0xcf; 0xce; 0xf0; 0xb4; 0xe6; 0x73;
  0x96; 0xac; 0x74; 0x22; 0xe7; 0xad; 0x35; 0x85; 0xe2; 0xf9; 0x37; 0xe8; 0x1c; 0x75; 0xdf; 0x6e;
  0x47; 0xf1; 0x1a; 0x71; 0x1d; 0x29; 0xc5; 0x89; 0x6f; 0xb7; 0x62; 0x0e; 0xaa; 0x18; 0xbe; 0x1b;
  0xfc; 0x56; 0x3e; 0x4b; 0xc6; 0xd2; 0x79; 0x20; 0x9a; 0xdb; 0xc0; 0xfe; 0x78; 0xcd; 0x5a; 0xf4;
  0x1f; 0xdd; 0xa8; 0x33; 0x88; 0x07; 0xc7; 0x31; 0xb1; 0x12; 0x10; 0x59; 0x27; 0x80; 0xec; 0x5f;
  0x60; 0x51; 0x7f; 0xa9; 0x19; 0xb5; 0x4a; 0x0d; 0x2d; 0xe5; 0x7a; 0x9f; 0x93; 0xc9; 0x9c; 0xef;
  0xa0; 0xe0; 0x3b; 0x4d; 0xae; 0x2a; 0xf5; 0xb0; 0xc8; 0xeb; 0xbb; 0x3c; 0x83; 0x53; 0x99; 0x61;
  0x17; 0x2b; 0x04; 0x7e; 0xba; 0x77; 0xd6; 0x26; 0xe1; 0x69; 0x14; 0x63; 0x55; 0x21; 0x0c; 0x7d].

Definition sub_byte (b : byte) : byte :=
  nth (N.to_nat (N_of_byte b)) sbox_table x00.
Definition inv_sub_byte (b : byte) : byte :=
  nth (N.to_nat (N_of_byte b)) inv_sbox_table x00.

Definition map_word (f : byte -> byte) (w : word) : word :=
  let '(a, b, c, d) := w in (f a, f b, f c, f d).
Definition map_block (f : word -> word) (s : block) : block :=
  let '(a, b, c, d) := s in (f a, f b, f c, f d).

Definition sub_word : word -> word := map_word sub_byte.
Definition rot_word (w : word) : word :=
  let '(a, b, c, d) := w in (b, c, d, a).

(** *** Key expansion *)

Fixpoint words_of_bytes (bs : bytes) : list word :=
  match bs with
  | a :: b :: c :: d :: r => (a, b, c, d) :: words_of_bytes r
  | _ => []
  end.

(** [expand Nk n i rc w] appends the words [w[i]], ..., [w[i+n-1]] of the
    key schedule to [w]; [rc] is the round constant due at the next multiple
    of [Nk]. *)
Fixpoint expand (Nk n i : nat) (rc : byte) (w : list word) : list word :=
  match n with
  | O => w
  | S n' =>
      let temp := nth (i - 1) w zero_word in
      let '(temp, rc') :=
        if Nat.eqb (i mod Nk) 0
        then (wxor (sub_word (rot_word temp)) (rc, x00, x00, x00), xtime rc)
        else if Nat.ltb 6 Nk && Nat.eqb (i mod Nk) 4
        then (sub_word temp, rc)
        else (temp, rc) in
      expand Nk n' (S i) rc' (w ++ [wxor (nth (i - Nk) w zero_word) temp])
  end.

Fixpoint blocks_of_words (ws : list word) : list block :=
  match ws with
  | a :: b :: c :: d :: r => (a, b, c, d) :: blocks_of_words r
  | _ => []
  end.

(** The round keys of a key of [4 * Nk] octets: [Nk + 7] of them. *)
Definition key_expansion (key : bytes) : list block :=
  let Nk := (length key / 4)%nat in
  blocks_of_words (expand Nk (4 * (Nk + 7) - Nk) Nk x01 (words_of_bytes key)).

(** *** The round transformations *)

Definition sub_bytes : block -> block := map_block sub_word.
Definition inv_sub_bytes : block -> block := map_block (map_word inv_sub_byte).

Definition shift_rows (s : block) : block :=
  let '((a0, a1, a2, a3), (b0, b1, b2, b3),
        (c0, c1, c2, c3), (d0, d1, d2, d3)) := s in
  ((a0, b1, c2, d3), (b0, c1, d2, a3), (c0, d1, a2, b3), (d0, a1, b2, c3)).

Definition inv_shift_rows (s : block) : block :=
  let '((a0, a1, a2, a3), (b0, b1, b2, b3),
        (c0, c1, c2, c3), (d0, d1, d2, d3)) := s in
  ((a0, d1, c2, b3), (b0, a1, d2, c3), (c0, b1, a2, d3), (d0, c1, b2, a3)).

Definition mix_column (w : word) : word :=
  let '(a, b, c, d) := w in
  (bxor (bxor (bxor (mul2 a) (mul3 b)) c) d,
   bxor (bxor (bxor a (mul2 b)) (mul3 c)) d,
   bxor (bxor (bxor a b) (mul2 c)) (mul3 d),
   bxor (bxor (bxor (mul3 a) b) c) (mul2 d)).

Definition inv_mix_column (w : word) : word :=
  let '(a, b, c, d) := w in
  (bxor (bxor (bxor (mul14 a) (mul11 b)) (mul13 c)) (mul9 d),
   bxor (bxor (bxor (mul9 a) (mul14 b)) (mul11 c)) (mul13 d),
   bxor (bxor (bxor (mul13 a) (mul9 b)) (mul14 c)) (mul11 d),
   bxor (bxor (bxor (mul11 a) (mul13 b)) (mul9 c)) (mul14 d)).

Definition mix_columns : block -> block := map_block mix_column.
Definition inv_mix_columns : block -> block := map_block inv_mix_column.

Definition add_round_key (k s : block) : block := block_xor s k.

(** *** Cipher and inverse cipher *)

Definition round (k s : block) : block :=
  add_round_key k (mix_columns (shift_rows (sub_bytes s))).
Definition final_round (k s : block) : block :=
  add_round_key k (shift_rows (sub_bytes s)).

Fixpoint rounds (ks : list block) (s : block) : block :=
  match ks with
  | [] => s
  | [k] => final_round k s
  | k :: ks' => rounds ks' (round k s)
  end.

Definition cipher (ks : list block) (s : block) : block :=
  match ks with
  | [] => s
  | k0 :: ks' => rounds ks' (add_round_key k0 s)
  end.

Definition inv_round (k s : block) : block :=
  inv_sub_bytes (inv_shift_rows (inv_mix_columns (add_round_key k s))).
Definition inv_final_round (k s : block) : block :=
  inv_sub_bytes (inv_shift_rows (add_round_key k s)).

Fixpoint inv_rounds (ks : list block) (s : block) : block :=
  match ks with
  | [] => s
  | [k] => inv_final_round k s
  | k :: ks' => inv_round k (inv_rounds ks' s)
  end.

Definition inv_cipher (ks : list block) (s : block) : block :=
  match ks with
  | [] => s
  | k0 :: ks' => add_round_key k0 (inv_rounds ks' s)
  end.

(** *** Blocks and byte strings *)

Definition bytes_of_word (w : word) : bytes :=
  let '(a, b, c, d) := w in [a; b; c; d].
Definition bytes_of_block (s : block) : bytes :=
  let '(a, b, c, d) := s in
  bytes_of_word a ++ bytes_of_word b ++ bytes_of_word c ++ bytes_of_word d.

(** Cuts a byte string into 16-octet blocks; [None] when the length is not a
    multiple of the block length. *)
Fixpoint blocks_of_bytes (bs : bytes) : option (list block) :=
  match bs with
  | [] => Some []
  | a0 :: a1 :: a2 :: a3 :: b0 :: b1 :: b2 :: b3 ::
    c0 :: c1 :: c2 :: c3 :: d0 :: d1 :: d2 :: d3 :: r =>
      match blocks_of_bytes r with
      | Some l =>
          Some (((a0, a1, a2, a3), (b0, b1, b2, b3),
                 (c0, c1, c2, c3), (d0, d1, d2, d3)) :: l)
      | None => None
      end
  | _ => None
  end.

Definition bytes_of_blocks (l : list block) : bytes :=
  concat (map bytes_of_block l).

End AES.

(** ** [Cipher(algorithms.AES(key), modes.CBC(iv))] *)

Module Ciphers.

(** The cipher object: the AES key schedule and the CBC initialisation
    vector it was built with. *)
Record Cipher : Type := mkCipher {
  round_keys : list AES.block;
  iv : AES.block
}.

(** [algorithms.AES(key)] accepts keys of 128, 192 and 256 bits in CBC
    mode. *)
Definition algorithms_AES (key : bytes) : result (list AES.block) :=
  let n := length key in
  if Nat.eqb n 16 || Nat.eqb n 24 || Nat.eqb n 32
  then Ok (AES.key_expansion key)
  else Raise (ValueError "Invalid key size for AES.").

(** [modes.CBC(iv)] needs an initialisation vector of one block. *)
Definition modes_CBC (v : bytes) : result AES.block :=
  match AES.blocks_of_bytes v with
  | Some [b] => Ok b
  | _ => Raise (ValueError "Invalid IV size for CBC.")
  end.

Definition new (algorithm : result (list AES.block))
  (mode : result AES.block) : result Cipher :=
  ks <- algorithm ;;
  v <- mode ;;
  Ok (mkCipher ks v).

Fixpoint cbc_encrypt (ks : list AES.block) (prev : AES.block)
  (ps : list AES.block) : list AES.block :=
  match ps with
  | [] => []
  | p :: ps' =>
      let c := AES.cipher ks (AES.block_xor p prev) in
      c :: cbc_encrypt ks c ps'
  end.

Fixpoint cbc_decrypt (ks : list AES.block) (prev : AES.block)
  (cs : list AES.block) : list AES.block :=
  match cs with
  | [] => []
  | c :: cs' =>
      AES.block_xor (AES.inv_cipher ks c) prev :: cbc_decrypt ks c cs'
  end.

Definition length_error : exn :=
  ValueError
    "The length of the provided data is not a multiple of the block length.".

(** [e = cipher.encryptor(); e.update(data) + e.finalize()] *)
Definition encrypt (c : Cipher) (data : bytes) : result bytes :=
  match AES.blocks_of_bytes data with
  | Some ps => Ok (AES.bytes_of_blocks (cbc_encrypt (round_keys c) (iv c) ps))
  | None => Raise length_error
  end.

(** [d = cipher.decryptor(); d.update(data) + d.finalize()] *)
Definition decrypt (c : Cipher) (data : bytes) : result bytes :=
  match AES.blocks_of_bytes data with
  | Some cs => Ok (AES.bytes_of_blocks (cbc_decrypt (round_keys c) (iv c) cs))
  | None => Raise length_error
  end.

End Ciphers.

(** ** [padding.PKCS7(128)] *)

Module PKCS7.

Definition block_len : nat := 16.

(** [p = padder(); p.update(data) + p.finalize()]: between 1 and 16 octets
    are added, each holding their number. *)
Definition pad (data : bytes) : bytes :=
  let n := (block_len - length data mod block_len)%nat in
  data ++ repeat (byte_of_N (N.of_nat n)) n.

Definition padding_error : exn := ValueError "Invalid padding bytes.".

(** [u = unpadder(); u.update(data) + u.finalize()]: the data must end on a
    full block whose last octet [n] satisfies [1 <= n <= 16] and is repeated
    [n] times. *)
Definition unpad (data : bytes) : result bytes :=
  let len := length data in
  if Nat.eqb len 0 || negb (Nat.eqb (len mod block_len) 0)
  then Raise padding_error
  else
    let b := last data x00 in
    let n := N.to_nat (N_of_byte b) in
    if Nat.leb 1 n && Nat.leb n block_len
       && forallb (Byte.eqb b) (skipn (len - n) data)
    then Ok (firstn (len - n) data)
    else Raise padding_error.

End PKCS7.

(** ** SHA-256 (FIPS 180-4), HMAC (RFC 2104), HKDF (RFC 5869) *)

Module SHA256.

Definition modulus : N := 4294967296.
Definition add32 (a b : N) : N := (a + b) mod modulus.
Definition not32 (a : N) : N := N.lxor a 0xFFFFFFFF.
Definition rotr (n x : N) : N :=
  N.lor (N.shiftr x n) ((N.shiftl x (32 - n)) mod modulus).
Definition shr (n x : N) : N := N.shiftr x n.

Definition Ch (x y z : N) : N := N.lxor (N.land x y) (N.land (not32 x) z).
Definition Maj (x y z : N) : N :=
  N.lxor (N.lxor (N.land x y) (N.land x z)) (N.land y z).
Definition Sigma0 (x : N) : N := N.lxor (N.lxor (rotr 2 x) (rotr 13 x)) (rotr 22 x).
Definition Sigma1 (x : N) : N := N.lxor (N.lxor (rotr 6 x) (rotr 11 x)) (rotr 25 x).
Definition sigma0 (x : N) : N := N.lxor (N.lxor (rotr 7 x) (rotr 18 x)) (shr 3 x).
Definition sigma1 (x : N) : N := N.lxor (N.lxor (rotr 17 x) (rotr 19 x)) (shr 10 x).

(** The round constants and the initial hash value are the first 32 bits
    of the fractional parts of the cube roots and of the square roots of the
    first primes; they are computed from that definition. *)
Definition is_prime (n : N) : bool :=
  (1 <? n) && forallb (fun d => negb (n mod N.of_nat d =? 0))
                      (seq 2 (N.to_nat n - 2)).

Definition primes : list N :=
  filter is_prime (map N.of_nat (seq 2 310)).

(** The largest [r] below [2 ^ bits] with [r ^ k <= n], found bit by bit
    from the top, starting from [r]. *)
Fixpoint root_from (k : N) (bits : nat) (n r : N) : N :=
  match bits with
  | O => r
  | S b =>
      let c := r + 2 ^ N.of_nat b in
      if c ^ k <=? n then root_from k b n c else root_from k b n r
  end.

Definition fractional_root (k p : N) : N :=
  root_from k 40 (p * 2 ^ (32 * k)) 0 mod modulus.

Definition K : list N := Eval vm_compute in map (fractional_root 3) primes.

(** Message padding: a one bit, zero bits up to 56 modulo 64 octets, then
    the bit length on eight octets. *)
Definition pad (msg : bytes) : bytes :=
  let len := length msg in
  let zeros := ((119 - len mod 64) mod 64)%nat in
  msg ++ x80 :: repeat x00 zeros ++ be_bytes 8 (N.of_nat len * 8).

Fixpoint words32 (bs : bytes) : list N :=
  match bs with
  | a :: b :: c :: d :: r => be_value [a; b; c; d] :: words32 r
  | _ => []
  end.

(** Extends the sixteen words of a block to the sixty-four of the message
    schedule. *)
Fixpoint schedule (n : nat) (w : list N) : list N :=
  match n with
  | O => w
  | S n' =>
      let t := length w in
      let x :=
        add32 (add32 (sigma1 (nth (t - 2) w 0)) (nth (t - 7) w 0))
              (add32 (sigma0 (nth (t - 15) w 0)) (nth (t - 16) w 0)) in
      schedule n' (w ++ [x])
  end.

Definition state : Type := (N * N * N * N * N * N * N * N)%type.

Definition step (s : state) (kw : N * N) : state :=
  let '(a, b, c, d, e, f, g, h) := s in
  let '(k, w) := kw in
  let t1 := add32 (add32 (add32 (add32 h (Sigma1 e)) (Ch e f g)) k) w in
  let t2 := add32 (Sigma0 a) (Maj a b c) in
  (add32 t1 t2, a, b, c, add32 d t1, e, f, g).

Definition compress (s : state) (blk : bytes) : state :=
  let w := schedule 48 (words32 blk) in
  let '(a, b, c, d, e, f, g, h) := fold_left step (combine K w) s in
  let '(a0, b0, c0, d0, e0, f0, g0, h0) := s in
  (add32 a0 a, add32 b0 b, add32 c0 c, add32 d0 d,
   add32 e0 e, add32 f0 f, add32 g0 g, add32 h0 h).

Fixpoint process (n : nat) (s : state) (bs : bytes) : state :=
  match n with
  | O => s
  | S n' => process n' (compress s (firstn 64 bs)) (skipn 64 bs)
  end.

Definition initial : state := Eval vm_compute in
  match map (fractional_root 2) (firstn 8 primes) with
  | [a; b; c; d; e; f; g; h] => (a, b, c, d, e, f, g, h)
  | _ => (0, 0, 0, 0, 0, 0, 0, 0)
  end.

Definition digest (msg : bytes) : bytes :=
  let m := pad msg in
  let '(a, b, c, d, e, f, g, h) := process (length m / 64) initial m in
  be_bytes 4 a ++ be_bytes 4 b ++ be_bytes 4 c ++ be_bytes 4 d ++
  be_bytes 4 e ++ be_bytes 4 f ++ be_bytes 4 g ++ be_bytes 4 h.

End SHA256.

Module HMAC.

Definition block_size : nat := 64.

Definition hmac (key msg : bytes) : bytes :=
  let k := if Nat.ltb block_size (length key) then SHA256.digest key else key in
  let k := k ++ repeat x00 (block_size - length k) in
  let ipad := map (bxor x36) k in
  let opad := map (bxor x5c) k in
  SHA256.digest (opad ++ SHA256.digest (ipad ++ msg)).

End HMAC.

Module HKDF.

Definition hash_len : nat := 32.

(** [salt=None] stands for a salt of [hash_len] zero octets. *)
Definition extract (salt : option bytes) (ikm : bytes) : bytes :=
  let s := match salt with Some s => s | None => repeat x00 hash_len end in
  HMAC.hmac s ikm.

(** [T(i) = HMAC(prk, T(i-1) || info || i)], for [i = 1, 2, ...] *)
Fixpoint expand_blocks (n : nat) (prk info prev : bytes) (i : N) : bytes :=
  match n with
  | O => []
  | S n' =>
      let t := HMAC.hmac prk (prev ++ info ++ [byte_of_N i]) in
      t ++ expand_blocks n' prk info t (i + 1)
  end.

Definition expand (prk info : bytes) (len : nat) : bytes :=
  firstn len (expand_blocks ((len + hash_len - 1) / hash_len) prk info [] 1).

(** [HKDF(SHA256, length, salt, info).derive(key_material)] *)
Definition derive (len : nat) (salt : option bytes) (info : bytes)
  (key_material : bytes) : bytes :=
  expand (extract salt key_material) info len.

End HKDF.

(** ** Diffie-Hellman key agreement (PKCS#3) *)

Module DH.

Record DHParameters : Type := mkParameters {
  p : N;   (* the modulus *)
  g : N    (* the generator *)
}.

Record DHPrivateKey : Type := mkPrivateKey {
  private_parameters : DHParameters;
  x : N    (* the secret exponent *)
}.

Record DHPublicKey : Type := mkPublicKey {
  public_parameters : DHParameters;
  y : N    (* the public value [g^x mod p] *)
}.

Definition parameters_eqb (a b : DHParameters) : bool :=
  (p a =? p b) && (g a =? g b).

(** Modular exponentiation by squaring, from the most significant bit of
    the exponent down. *)
Fixpoint pow_mod_pos (b : N) (e : positive) (m : N) : N :=
  match e with
  | xH => b mod m
  | xO e' => let r := pow_mod_pos b e' m in (r * r) mod m
  | xI e' => let r := pow_mod_pos b e' m in ((r * r) mod m * b) mod m
  end.

Definition pow_mod (b e m : N) : N :=
  match e with
  | N0 => 1 mod m
  | Npos e' => pow_mod_pos b e' m
  end.

(** [dh.generate_parameters(generator, key_size, backend)] draws a prime of
    [key_size] bits; the prime drawn is an argument of the model. *)
Definition generate_parameters (generator : N) (key_size : nat) (prime : N)
  : DHParameters :=
  mkParameters prime generator.

(** [parameters.generate_private_key()] draws the secret exponent; the
    exponent drawn is an argument of the model. *)
Definition generate_private_key (parameters : DHParameters) (secret : N)
  : DHPrivateKey :=
  mkPrivateKey parameters secret.

(** [private_key.public_key()] *)
Definition public_key (k : DHPrivateKey) : DHPublicKey :=
  let ps := private_parameters k in
  mkPublicKey ps (pow_mod (g ps) (x k) (p ps)).

Definition key_size_bytes (ps : DHParameters) : nat :=
  ((N.to_nat (N.size (p ps)) + 7) / 8)%nat.

(** [private_key.exchange(peer_public_key)]: the two keys must live in the
    same group; the agreed value is returned big-endian on as many octets
    as the modulus has. *)
Definition exchange (k : DHPrivateKey) (peer : DHPublicKey) : result bytes :=
  let ps := private_parameters k in
  if parameters_eqb ps (public_parameters peer)
  then Ok (be_bytes (key_size_bytes ps) (pow_mod (y peer) (x k) (p ps)))
  else Raise (ValueError "Error computing shared key.").

End DH.

(** ** Base64 (RFC 4648) *)

Module Base64.

Definition alphabet : bytes := Eval vm_compute in
  map byte_of_N
    (str "ABCDEFGHIJKLMNOPQRSTUVWXYZabcdefghijklmnopqrstuvwxyz0123456789+/").

Definition pad_char : byte := "="%byte.

Definition char_of (n : N) : byte := nth (N.to_nat n) alphabet pad_char.

Fixpoint index_from (c : byte) (l : bytes) (i : N) : option N :=
  match l with
  | [] => None
  | a :: l' => if Byte.eqb a c then Some i else index_from c l' (i + 1)
  end.

Definition index_of (c : byte) : option N := index_from c alphabet 0.

Fixpoint encode (bs : bytes) : bytes :=
  match bs with
  | [] => []
  | [a] =>
      let n := N_of_byte a in
      [char_of (n / 4); char_of ((n mod 4) * 16); pad_char; pad_char]
  | [a; b] =>
      let n := N_of_byte a * 256 + N_of_byte b in
      [char_of (n / 1024); char_of ((n / 16) mod 64);
       char_of ((n mod 16) * 4); pad_char]
  | a :: b :: c :: r =>
      let n := N_of_byte a * 65536 + N_of_byte b * 256 + N_of_byte c in
      char_of (n / 262144) :: char_of ((n / 4096) mod 64)
        :: char_of ((n / 64) mod 64) :: char_of (n mod 64) :: encode r
  end.

(** The strict decoder: full quanta, padding only at the end, unused bits
    zero. *)
Fixpoint decode (cs : bytes) : option bytes :=
  match cs with
  | [] => Some []
  | c0 :: c1 :: c2 :: c3 :: r =>
      match index_of c0, index_of c1 with
      | Some i0, Some i1 =>
          match index_of c2, index_of c3 with
          | Some i2, Some i3 =>
              let n := i0 * 262144 + i1 * 4096 + i2 * 64 + i3 in
              match decode r with
              | Some bs =>
                  Some (byte_of_N (n / 65536) :: byte_of_N (n / 256)
                          :: byte_of_N n :: bs)
              | None => None
              end
          | Some i2, None =>
              if Byte.eqb c3 pad_char && (i2 mod 4 =? 0)
                 && match r with [] => true | _ => false end
              then let n := i0 * 1024 + i1 * 16 + i2 / 4 in
                   Some [byte_of_N (n / 256); byte_of_N n]
              else None
          | None, _ =>
              if Byte.eqb c2 pad_char && Byte.eqb c3 pad_char
                 && (i1 mod 16 =? 0)
                 && match r with [] => true | _ => false end
              then Some [byte_of_N (i0 * 4 + i1 / 16)]
              else None
          end
      | _, _ => None
      end
  | _ => None
  end.

End Base64.

(** ** DER (X.690) encoding of a [SubjectPublicKeyInfo] for a DH key *)

Module DER.

Definition tag_integer : byte := x02.
Definition tag_bit_string : byte := x03.
Definition tag_sequence : byte := x30.

(** Definite length: one octet below 128, else the count of length octets
    followed by the length, big-endian. *)
Definition encode_length (n : nat) : bytes :=
  if Nat.ltb n 128 then [byte_of_N (N.of_nat n)]
  else let d := be_digits (N.of_nat n) in
       byte_of_N (0x80 + N.of_nat (length d)) :: d.

Definition tlv (tag : byte) (content : bytes) : bytes :=
  tag :: encode_length (length content) ++ content.

(** A non-negative INTEGER: minimal big-endian digits, with a zero octet in
    front when the top bit would read as a sign. *)
Definition integer_content (n : N) : bytes :=
  match be_digits n with
  | [] => [x00]
  | b :: d => if 0x80 <=? N_of_byte b then x00 :: b :: d else b :: d
  end.

Definition encode_integer (n : N) : bytes := tlv tag_integer (integer_content n).

(** OBJECT IDENTIFIER 1.2.840.113549.1.3.1 (dhKeyAgreement), tag and
    length included. *)
Definition dh_oid : bytes :=
  [x06; x09; x2a; x86; x48; x86; xf7; x0d; x01; x03; x01].

Definition encode_public_key (k : DH.DHPublicKey) : bytes :=
  let ps := DH.public_parameters k in
  tlv tag_sequence
    (tlv tag_sequence
       (dh_oid ++ tlv tag_sequence (encode_integer (DH.p ps)
                                    ++ encode_integer (DH.g ps)))
     ++ tlv tag_bit_string (x00 :: encode_integer (DH.y k))).

(** *** Parsing *)

Definition decode_length (bs : bytes) : option (nat * bytes) :=
  match bs with
  | [] => None
  | b :: r =>
      let n := N_of_byte b in
      if n <? 128 then Some (N.to_nat n, r)
      else
        let k := N.to_nat (n - 128) in
        let d := firstn k r in
        let v := be_value d in
        if Nat.eqb (length d) k && (128 <=? v)
           && match d with b0 :: _ => negb (Byte.eqb b0 x00) | [] => false end
        then Some (N.to_nat v, skipn k r)
        else None
  end.

(** Reads one value with the expected tag; returns its content and what
    follows it. *)
Definition decode_tlv (tag : byte) (bs : bytes) : option (bytes * bytes) :=
  match bs with
  | [] => None
  | t :: r =>
      if Byte.eqb t tag then
        match decode_length r with
        | Some (n, r') =>
            if Nat.leb n (length r') then Some (firstn n r', skipn n r')
            else None
        | None => None
        end
      else None
  end.

Definition decode_integer (bs : bytes) : option (N * bytes) :=
  match decode_tlv tag_integer bs with
  | Some (b :: d, rest) =>
      let minimal :=
        match d with
        | [] => true
        | b1 :: _ => negb (Byte.eqb b x00) || (0x80 <=? N_of_byte b1)
        end in
      if (N_of_byte b <? 0x80) && minimal
      then Some (be_value (b :: d), rest)
      else None
  | _ => None
  end.

Fixpoint strip_prefix (pre bs : bytes) : option bytes :=
  match pre, bs with
  | [], _ => Some bs
  | a :: pre', b :: bs' => if Byte.eqb a b then strip_prefix pre' bs' else None
  | _ :: _, [] => None
  end.

Definition decode_public_key (bs : bytes) : option DH.DHPublicKey :=
  match decode_tlv tag_sequence bs with
  | Some (spki, []) =>
      match decode_tlv tag_sequence spki with
      | Some (alg, key) =>
          match strip_prefix dh_oid alg with
          | Some params =>
              match decode_tlv tag_sequence params with
              | Some (pg, []) =>
                  match decode_integer pg with
                  | Some (p, pg') =>
                      match decode_integer pg' with
                      | Some (g, []) =>
                          match decode_tlv tag_bit_string key with
                          | Some (x00 :: bits, []) =>
                              match decode_integer bits with
                              | Some (y, []) =>
                                  Some (DH.mkPublicKey (DH.mkParameters p g) y)
                              | _ => None
                              end
                          | _ => None
                          end
                      | _ => None
                      end
                  | None => None
                  end
              | _ => None
              end
          | None => None
          end
      | None => None
      end
  | _ => None
  end.

End DER.

(** ** PEM armour (RFC 7468) and the [serialization] entry points *)

Module PEM.

Definition newline : byte := x0a.

Definition header : bytes := Eval vm_compute in
  map byte_of_N (str "-----BEGIN PUBLIC KEY-----") ++ [newline].
Definition footer : bytes := Eval vm_compute in
  map byte_of_N (str "-----END PUBLIC KEY-----") ++ [newline].

(** Breaks the Base64 text into lines of 64 characters, each ended by a
    newline; [col] counts the characters already on the current line. *)
Fixpoint wrap (col : nat) (cs : bytes) : bytes :=
  match cs with
  | [] => if Nat.eqb col 0 then [] else [newline]
  | c :: r =>
      if Nat.eqb col 64 then newline :: c :: wrap 1 r
      else c :: wrap (S col) r
  end.

Definition unwrap (cs : bytes) : bytes :=
  filter (fun c => negb (Byte.eqb c newline)) cs.

(** Splits [bs] into what precedes a given suffix, if [bs] ends with it. *)
Definition strip_suffix (suf bs : bytes) : option bytes :=
  let n := (length bs - length suf)%nat in
  match DER.strip_prefix suf (skipn n bs) with
  | Some [] => Some (firstn n bs)
  | _ => None
  end.

(** [key.public_bytes(Encoding.PEM, PublicFormat.SubjectPublicKeyInfo)] *)
Definition public_bytes (k : DH.DHPublicKey) : bytes :=
  header ++ wrap 0 (Base64.encode (DER.encode_public_key k)) ++ footer.

(** [serialization.load_pem_public_key(data, backend)], for the armour and
    the encoding that [public_bytes] writes.  Any other input raises
    [ValueError], the library's answer to data it cannot deserialise; keys
    of other algorithms, which the library would load and [exchange] would
    then refuse, are refused here already. *)
Definition load_pem_public_key (data : bytes) : result DH.DHPublicKey :=
  let failure := Raise (ValueError "Could not deserialize key data.") in
  match DER.strip_prefix header data with
  | Some rest =>
      match strip_suffix footer rest with
      | Some body =>
          match Base64.decode (unwrap body) with
          | Some der =>
              match DER.decode_public_key der with
              | Some k => Ok k
              | None => failure
              end
          | None => failure
          end
      | None => failure
      end
  | None => failure
  end.

End PEM.

(* ================================================================== *)
(** * Part III. The functions of [TorzelaUtils.py]                     *)
(* ================================================================== *)

(** Byte-string literals such as [b'handshake data']. *)
Definition bytes_literal (s : string) : bytes :=
  map byte_of_ascii (list_ascii_of_string s).

(** [ascii_letters + ".,:;-+*/?!()[]{}"] *)
Definition chars : pystr :=
  str "abcdefghijklmnopqrstuvwxyzABCDEFGHIJKLMNOPQRSTUVWXYZ.,:;-+*/?!()[]{}".

(** [createRandomMessage(messageSize)]; [choice i] is the index that
    [random.choice] draws for position [i]. *)
Definition createRandomMessage (messageSize : nat) (choice : nat -> nat)
  : pystr :=
  map (fun i => nth (choice i mod length chars) chars 0) (seq 0 messageSize).

(** [createKeyGenerator()]; [prime] is the modulus that the backend draws. *)
Definition createKeyGenerator (prime : N) : DH.DHParameters :=
  DH.generate_parameters 2 512 prime.

(** The initialisation vector written out in [createCipher]:
    [b'+\xed6\xdd\xf0\xb1\x17\xa2\xa7\x12\x13\xd3\xd0\xf9\x14\xac']. *)
Definition iv : bytes :=
  [x2b; xed; x36; xdd; xf0; xb1; x17; xa2;
   xa7; x12; x13; xd3; xd0; xf9; x14; xac].

Definition createCipher (sharedSecret : bytes) : result Ciphers.Cipher :=
  Ciphers.new (Ciphers.algorithms_AES sharedSecret) (Ciphers.modes_CBC iv).

(** [generateKeys(keyGenerator)]; [secret] is the exponent that
    [generate_private_key] draws. *)
Definition generateKeys (keyGenerator : DH.DHParameters) (secret : N)
  : DH.DHPrivateKey * DH.DHPublicKey :=
  let privateKey := DH.generate_private_key keyGenerator secret in
  let publicKey := DH.public_key privateKey in
  (privateKey, publicKey).

Definition computeSharedSecret (myPrivateKey : DH.DHPrivateKey)
  (otherPublicKey : DH.DHPublicKey) : result bytes :=
  shared_key <- DH.exchange myPrivateKey otherPublicKey ;;
  let sharedSecret :=
    HKDF.derive 32 None (bytes_literal "handshake data") shared_key in
  Ok sharedSecret.

Definition encryptMessage (shared_secret : bytes) (msg : pystr)
  : result bytes :=
  data <- encode (PyStr msg) ;;
  let padded_data := PKCS7.pad data in
  cipher <- createCipher shared_secret ;;
  e <- Ciphers.encrypt cipher padded_data ;;
  Ok e.

Definition decryptMessage (shared_secret : bytes) (msg : bytes)
  : result pystr :=
  cipher <- createCipher shared_secret ;;
  dt <- Ciphers.decrypt cipher msg ;;
  unpadded_data <- PKCS7.unpad dt ;;
  decode (PyBytes unpadded_data).

Definition serializePublicKey (public_key : DH.DHPublicKey) : result pystr :=
  decode (PyBytes (PEM.public_bytes public_key)).

Definition deserializePublicKey (public_key : pystr)
  : result DH.DHPublicKey :=
  data <- encode (PyStr public_key) ;;
  PEM.load_pem_public_key data.

(** What [decryptOnionLayer] hands back: a tuple whose shape depends on the
    server type, or [None] when the function falls off its end. *)
Inductive retval : Type :=
| Tuple2 (ppk : DH.DHPublicKey) (payload : pystr)
| Tuple3 (ppk : DH.DHPublicKey) (DDS : Z) (payload : pystr)
| Tuple4 (ppk : DH.DHPublicKey) (clientChain DD : Z) (payload : pystr)
| PyNone.

(** A call that may print: the lines written to standard output, and the
    result. *)
Definition io (A : Type) : Type := (list string * result A)%type.

Definition silent {A : Type} (r : result A) : io A := ([], r).

Definition bind_io {A B : Type} (r : result A) (k : A -> io B) : io B :=
  match r with
  | Ok a => k a
  | Raise e => ([], Raise e)
  end.

Notation "x <~ c ;; k" := (bind_io c (fun x => k))
  (at level 61, c at next level, right associativity) : py_scope.
Notation "' pat <~ c ;; k" :=
  (bind_io c (fun x => match x with pat => k end))
  (at level 61, pat pattern, c at next level, right associativity) : py_scope.

Definition role_error_line : string :=
  "ERROR decryptOnionLayer: serverType must be in {0,1,2}".

(** The [if]/[elif]/[else] chain that ends [decryptOnionLayer] (lines
    109-119): the parsing of the decrypted payload by server type. *)
Definition parseByServerType (ppk : DH.DHPublicKey) (decryptedPayload : pystr)
  (serverType : Z) : io retval :=
  if (serverType =? 0)%Z then
    silent (Ok (Tuple2 ppk decryptedPayload))
  else if (serverType =? 1)%Z then
    silent (
      '(DDS, payload1, payload2) <- unpack3 (split hash 2 decryptedPayload) ;;
      let decryptedPayload := payload1 ++ [hash] ++ payload2 in
      dds <- py_int DDS ;;
      Ok (Tuple3 ppk dds decryptedPayload))
  else if (serverType =? 2)%Z then
    silent (
      '(clientChain, DD, payload) <- unpack3 (split hash 2 decryptedPayload) ;;
      cc <- py_int clientChain ;;
      dd <- py_int DD ;;
      Ok (Tuple4 ppk cc dd payload))
  else
    ([role_error_line], Ok PyNone).

Definition decryptOnionLayer (serverPrivateKey : DH.DHPrivateKey)
  (msgPayload : pystr) (serverType : Z) : io retval :=
  '(ppk, payload) <~ unpack2 (split hash 1 msgPayload) ;;
  ppk <~ deserializePublicKey ppk ;;
  payload <~ encode (PyStr payload) ;;
  sharedSecret <~ computeSharedSecret serverPrivateKey ppk ;;
  plaintext <~ decryptMessage sharedSecret payload ;;
  decryptedPayload <~ decode (PyStr plaintext) ;;
  parseByServerType ppk decryptedPayload serverType.

Definition encryptOnionLayer (serverPrivateKey : DH.DHPrivateKey)
  (clientPublicKey : DH.DHPublicKey) (msgPayload : pystr) : result pystr :=
  sharedSecret <- computeSharedSecret serverPrivateKey clientPublicKey ;;
  encryptedPayload <- encryptMessage sharedSecret msgPayload ;;
  decode (PyBytes encryptedPayload).

(** ** The two self-tests

    [testEncryption] and [testKeySerialization] take no argument: what
    varies between two runs is what the [random] module and the key
    generator of the backend draw.  The model reads both from tapes, one
    draw after the other, and keeps the lines printed. *)

Record entropy : Type := mkEntropy {
  random_tape : nat -> nat;  (* the successive draws of [random] *)
  key_tape : nat -> N        (* the successive secret exponents *)
}.

(** How far the two tapes have been read. *)
Record cursor : Type := mkCursor {
  random_pos : nat;
  key_pos : nat
}.

(** A statement of a test: from a cursor, the lines it prints and either
    its value with the new cursor or an exception. *)
Definition test (A : Type) : Type :=
  cursor -> list pystr * result (A * cursor).

Definition test_ret {A : Type} (a : A) : test A := fun c => ([], Ok (a, c)).

Definition test_bind {A B : Type} (m : test A) (k : A -> test B) : test B :=
  fun c =>
    match m c with
    | (out, Ok (a, c')) => let '(out', r) := k a c' in (out ++ out', r)
    | (out, Raise e) => (out, Raise e)
    end.

Notation "x <== c ;; k" := (test_bind c (fun x => k))
  (at level 61, c at next level, right associativity) : py_scope.
Notation "' pat <== c ;; k" :=
  (test_bind c (fun x => match x with pat => k end))
  (at level 61, pat pattern, c at next level, right associativity) : py_scope.

Definition test_lift {A : Type} (r : result A) : test A :=
  fun c => ([], match r with Ok a => Ok (a, c) | Raise e => Raise e end).

Definition print (line : pystr) : test unit := fun c => ([line], Ok (tt, c)).

(** [randrange(start, stop)]: one draw, brought into [start .. stop - 1]. *)
Definition randrange (e : entropy) (start stop : nat) : test nat :=
  fun c =>
    ([], Ok ((start + random_tape e (random_pos c) mod (stop - start))%nat,
             mkCursor (S (random_pos c)) (key_pos c))).

(** [createRandomMessage(size)] inside a test: [size] draws. *)
Definition drawMessage (e : entropy) (size : nat) : test pystr :=
  fun c =>
    ([], Ok (createRandomMessage size
               (fun i => random_tape e (random_pos c + i)%nat),
             mkCursor (random_pos c + size) (key_pos c))).

(** [generateKeys(keyGenerator)] inside a test: one secret exponent. *)
Definition drawKeys (e : entropy) (keyGenerator : DH.DHParameters)
  : test (DH.DHPrivateKey * DH.DHPublicKey) :=
  fun c =>
    ([], Ok (generateKeys keyGenerator (key_tape e (key_pos c)),
             mkCursor (random_pos c) (S (key_pos c)))).

(** [for _ in range(n)] over a loop body that updates one variable. *)
Fixpoint for_range {S : Type} (n : nat) (body : S -> test S) (s : S)
  : test S :=
  match n with
  | O => test_ret s
  | Datatypes.S n' => s' <== body s ;; for_range n' body s'
  end.

(** [a != b] on byte strings and on texts. *)
Definition bytes_ne (a b : bytes) : bool :=
  if list_eq_dec Byte.byte_eq_dec a b then false else true.
Definition str_ne (a b : pystr) : bool :=
  if list_eq_dec N.eq_dec a b then false else true.

(** ["{}".format(n)] for a natural number. *)
Definition decimal (n : nat) : pystr :=
  str (NilEmpty.string_of_uint (Nat.to_uint n)).

(** ["FAILURE: on <what>. Size: {}, Message: #{}#, Answer: #{}#"
      .format(size, msg, answer)] *)
Definition failure_line (what : string) (size : nat) (msg answer : pystr)
  : pystr :=
  str "FAILURE: on " ++ str what ++ str ". Size: " ++ decimal size
  ++ str ", Message: #" ++ msg ++ str "#, Answer: #" ++ answer ++ str "#".

(** The body of the loop of [testEncryption] (lines 135-151). *)
Definition testEncryption_body (e : entropy)
  (a_private_key : DH.DHPrivateKey) (a_public_key : DH.DHPublicKey)
  (b_private_key : DH.DHPrivateKey) (b_public_key : DH.DHPublicKey)
  (error : bool) : test bool :=
  size <== randrange e 10 256 ;;
  msg <== drawMessage e size ;;
  a_shared_secret <==
    test_lift (computeSharedSecret a_private_key b_public_key) ;;
  ct <== test_lift (encryptMessage a_shared_secret msg) ;;
  b_shared_secret <==
    test_lift (computeSharedSecret b_private_key a_public_key) ;;
  answer <== test_lift (decryptMessage b_shared_secret ct) ;;
  let error :=
    error || bytes_ne a_shared_secret b_shared_secret || str_ne answer msg in
  if bytes_ne a_shared_secret b_shared_secret then
    _ <== print (str "FAILURE: shared secret different") ;;
    test_ret true
  else if str_ne answer msg then
    _ <== print (failure_line "encryption" size msg answer) ;;
    test_ret error
  else test_ret error.

Definition start : cursor := mkCursor 0 0.

(** [testEncryption()]; [prime] is the modulus that [createKeyGenerator]
    draws. *)
Definition testEncryption (prime : N) (e : entropy)
  : list pystr * result unit :=
  let run :=
    let keyGenerator := createKeyGenerator prime in
    '(a_private_key, a_public_key) <== drawKeys e keyGenerator ;;
    '(b_private_key, b_public_key) <== drawKeys e keyGenerator ;;
    error <== for_range 10000
                (testEncryption_body e a_private_key a_public_key
                   b_private_key b_public_key) false ;;
    if negb error then print (str "SUCESS") else test_ret tt in
  match run start with
  | (out, Ok (v, _)) => (out, Ok v)
  | (out, Raise x) => (out, Raise x)
  end.

(** The body of the loop of [testKeySerialization] (lines 161-181). *)
Definition testKeySerialization_body (e : entropy)
  (keyGenerator : DH.DHParameters) (error : bool) : test bool :=
  size <== randrange e 10 256 ;;
  msg <== drawMessage e size ;;
  '(a_private_key, a_public_key) <== drawKeys e keyGenerator ;;
  '(b_private_key, b_public_key) <== drawKeys e keyGenerator ;;
  a_shared_secret <==
    test_lift (computeSharedSecret a_private_key b_public_key) ;;
  ct <== test_lift (encryptMessage a_shared_secret msg) ;;
  b_public_key_serialized <== test_lift (serializePublicKey b_public_key) ;;
  b_public_key <==
    test_lift (deserializePublicKey b_public_key_serialized) ;;
  a_shared_secret <==
    test_lift (computeSharedSecret a_private_key b_public_key) ;;
  answer <== test_lift (decryptMessage a_shared_secret ct) ;;
  if str_ne msg answer then
    _ <== print (failure_line "serialization" size msg answer) ;;
    test_ret true
  else test_ret error.

(** [testKeySerialization()] *)
Definition testKeySerialization (prime : N) (e : entropy)
  : list pystr * result unit :=
  let run :=
    let keyGenerator := createKeyGenerator prime in
    error <== for_range 10000 (testKeySerialization_body e keyGenerator)
                false ;;
    if negb error then print (str "SUCESS") else test_ret tt in
  match run start with
  | (out, Ok (v, _)) => (out, Ok v)
  | (out, Raise x) => (out, Raise x)
  end.

(** ** Sample data

    A 512-bit modulus that OpenSSL's parameter generation drew for
    generator 2, two key pairs under it, and the secret the two pairs agree
    on.  The secret exponents are short so that the sample evaluates
    quickly. *)

Module Sample.

Definition prime : N :=
  10727055299730938588577047223403358581887869263214238676141776288249664579525409460450796656300639639889083643598189028304430473800360177829023007673256623.

Definition keyGenerator : DH.DHParameters := createKeyGenerator prime.

Definition alice : DH.DHPrivateKey * DH.DHPublicKey :=
  generateKeys keyGenerator 65537.
Definition bob : DH.DHPrivateKey * DH.DHPublicKey :=
  generateKeys keyGenerator 65539.

Definition alice_private : DH.DHPrivateKey :=
  DH.mkPrivateKey keyGenerator 65537.
Definition alice_public : DH.DHPublicKey :=
  DH.mkPublicKey keyGenerator
    373417608183654664165355855908712392022528293541858619831756988889681880674322581945684616392733249197693194016525666916810871495072666000022919381365957.

Definition bob_private : DH.DHPrivateKey :=
  DH.mkPrivateKey keyGenerator 65539.
Definition bob_public : DH.DHPublicKey :=
  DH.mkPublicKey keyGenerator
    1493670432734618656661423423634849568090113174167434479327027955558727522697290327782738465570932996790772776066102667667243485980290664000091677525463828.

Definition secret : bytes :=
  [xa2; x47; x7a; xa1; x8f; x11; x1b; x6b; xd0; xbe; xb6; xed; x71; x95; x70; x2b;
   x6e; x8a; x47; xea; xcf; xc8; xaf; x70; x3c; xbd; x99; x47; xc3; xd3; xe6; xdf].

(** A payload whose ciphertext under [secret] happens to be UTF-8, the
    text of Alice's serialised public key, the text that [encryptOnionLayer]
    makes of the payload, and the onion layer built from the two. *)
Definition payload : pystr := str "hello 50591".

Definition pem : pystr := Eval vm_compute in
  match serializePublicKey alice_public with
  | Ok t => t
  | Raise _ => []
  end.

Definition text : pystr := Eval vm_compute in
  match c <- encryptMessage secret payload ;; decode (PyBytes c) with
  | Ok t => t
  | Raise _ => []
  end.

Definition layer : pystr := pem ++ hash :: text.

(** The AES-256-CBC ciphertext of ["hello"] under [secret]. *)
Definition hello_ciphertext : bytes :=
  [xe2; x41; x5b; x98; xfb; x68; x29; x5f; xc1; x55; xe8; x92; x8c; x24; x75; xca].

End Sample.

(** ** Predicates and constants of the statements *)

(** Text made of ASCII characters only. *)
Definition ascii_text (s : pystr) : Prop := Forall (fun c => c < 128) s.

(** The initialisation vector of [createCipher], as a block. *)
Definition iv_block : AES.block :=
  ((x2b, xed, x36, xdd), (xf0, xb1, x17, xa2),
   (xa7, x12, x13, xd3), (xd0, xf9, x14, xac)).

(** Lengths that fit the eight length octets the DER lemmas allow. *)
Definition small (n : nat) : Prop := N.of_nat n < 256 ^ 8.

(** Numbers of at most 10000 bits, the largest modulus OpenSSL works with;
    every DER length then fits eight octets. *)
Definition bounded (n : N) : Prop := n < 256 ^ 1250.

(** ASCII octets other than the separator of the onion layer. *)
Definition text_octet (b : byte) : Prop :=
  N_of_byte b < 128 /\ b <> "#"%byte.

(** Text octets other than the newline. *)
Definition ascii_bytes (bs : bytes) : Prop :=
  Forall (fun b => text_octet b /\ b <> PEM.newline) bs.

(** The eight working variables of SHA-256 are 32-bit words. *)
Definition state_ok (s : SHA256.state) : Prop :=
  let '(a, b, c, d, e, f, g, h) := s in
  a < SHA256.modulus /\ b < SHA256.modulus /\ c < SHA256.modulus /\
  d < SHA256.modulus /\ e < SHA256.modulus /\ f < SHA256.modulus /\
  g < SHA256.modulus /\ h < SHA256.modulus.

(** The printable ASCII characters, blank included. *)
Definition printable (c : N) : bool := (0x20 <=? c) && (c <=? 0x7E).

(* ================================================================== *)
(** * Part IV. Lemmas                                                  *)
(* ================================================================== *)

(** ** Results *)

Lemma Ok_inj {A : Type} (a b : A) : Ok a = Ok b -> a = b.
Proof. intros H. now injection H. Qed.

(** ** Octets *)

Lemma N_of_byte_lt (b : byte) : N_of_byte b < 256.
Proof. pose proof (Byte.to_N_bounded b). unfold N_of_byte. lia. Qed.

Lemma N_of_byte_of_N (n : N) : n < 256 -> N_of_byte (byte_of_N n) = n.
Proof.
  intros Hn. unfold N_of_byte, byte_of_N.
  rewrite N.mod_small by exact Hn.
  destruct (Byte.of_N n) as [b|] eqn:E.
  - apply Byte.to_of_N. exact E.
  - apply Byte.of_N_None_iff in E. lia.
Qed.

Lemma byte_of_N_of_byte (b : byte) : byte_of_N (N_of_byte b) = b.
Proof.
  unfold N_of_byte, byte_of_N.
  rewrite N.mod_small by (pose proof (Byte.to_N_bounded b); lia).
  rewrite Byte.of_to_N. reflexivity.
Qed.

Lemma to_bits_bxor (a b : byte) :
  Byte.to_bits (bxor a b) =
  (let '(a0, (a1, (a2, (a3, (a4, (a5, (a6, a7))))))) := Byte.to_bits a in
   let '(b0, (b1, (b2, (b3, (b4, (b5, (b6, b7))))))) := Byte.to_bits b in
   (xorb a0 b0, (xorb a1 b1, (xorb a2 b2, (xorb a3 b3,
   (xorb a4 b4, (xorb a5 b5, (xorb a6 b6, xorb a7 b7)))))))).
Proof.
  unfold bxor.
  destruct (Byte.to_bits a) as (a0 & a1 & a2 & a3 & a4 & a5 & a6 & a7).
  destruct (Byte.to_bits b) as (b0 & b1 & b2 & b3 & b4 & b5 & b6 & b7).
  apply Byte.to_bits_of_bits.
Qed.

Lemma to_bits_inj (a b : byte) : Byte.to_bits a = Byte.to_bits b -> a = b.
Proof.
  intros H. rewrite <- (Byte.of_bits_to_bits a), <- (Byte.of_bits_to_bits b).
  now rewrite H.
Qed.

(** Splits an equation between octets into eight equations between bits. *)
Ltac bitwise :=
  apply to_bits_inj;
  repeat (rewrite ?to_bits_bxor, ?Byte.to_bits_of_bits; cbv beta iota);
  repeat match goal with
         | |- context [Byte.to_bits ?x] =>
             is_var x;
             let t := fresh "t" in
             remember (Byte.to_bits x) as t;
             match goal with H : t = _ |- _ => clear H end;
             destruct t as (?b0 & ?b1 & ?b2 & ?b3 & ?b4 & ?b5 & ?b6 & ?b7)
         end;
  cbv beta iota;
  repeat match goal with |- pair _ _ = pair _ _ => apply f_equal2 end;
  try btauto.

Lemma bxor_comm (a b : byte) : bxor a b = bxor b a.
Proof. bitwise. Qed.

Lemma bxor_assoc (a b c : byte) : bxor (bxor a b) c = bxor a (bxor b c).
Proof. bitwise. Qed.

Lemma bxor_cancel_r (a k : byte) : bxor (bxor a k) k = a.
Proof. bitwise. Qed.

Lemma bxor_zero_r (a : byte) : bxor a x00 = a.
Proof. destruct a; reflexivity. Qed.

(** ** AES: the inverse cipher undoes the cipher *)

Lemma to_bits_xtime (a : byte) :
  Byte.to_bits (AES.xtime a) =
  (let '(a0, (a1, (a2, (a3, (a4, (a5, (a6, a7))))))) := Byte.to_bits a in
   (a7, (xorb a0 a7, (a1, (xorb a2 a7, (xorb a3 a7, (a4, (a5, a6)))))))).
Proof.
  unfold AES.xtime.
  destruct (Byte.to_bits a) as (a0 & a1 & a2 & a3 & a4 & a5 & a6 & a7).
  apply Byte.to_bits_of_bits.
Qed.

Lemma inv_sub_byte_sub_byte (b : byte) : AES.inv_sub_byte (AES.sub_byte b) = b.
Proof. destruct b; reflexivity. Qed.

Lemma inv_mix_column_mix_column (w : AES.word) :
  AES.inv_mix_column (AES.mix_column w) = w.
Proof.
  destruct w as [[[a b] c] d].
  unfold AES.inv_mix_column, AES.mix_column.
  unfold AES.mul14, AES.mul13, AES.mul11, AES.mul9, AES.mul8, AES.mul4,
    AES.mul3, AES.mul2.
  repeat match goal with |- pair _ _ = pair _ _ => apply f_equal2 end.
  all: apply to_bits_inj;
    repeat (rewrite ?to_bits_bxor, ?to_bits_xtime; cbv beta iota).
  all: destruct (Byte.to_bits a) as (a0 & a1 & a2 & a3 & a4 & a5 & a6 & a7);
    destruct (Byte.to_bits b) as (b0 & b1 & b2 & b3 & b4 & b5 & b6 & b7);
    destruct (Byte.to_bits c) as (c0 & c1 & c2 & c3 & c4 & c5 & c6 & c7);
    destruct (Byte.to_bits d) as (d0 & d1 & d2 & d3 & d4 & d5 & d6 & d7);
    cbv beta iota;
    repeat match goal with |- pair _ _ = pair _ _ => apply f_equal2 end.
  all: btauto.
Qed.

Lemma wxor_cancel_r (u k : AES.word) : AES.wxor (AES.wxor u k) k = u.
Proof.
  destruct u as [[[a b] c] d], k as [[[e f] g] h]; unfold AES.wxor.
  now rewrite !bxor_cancel_r.
Qed.

Lemma block_xor_cancel_r (s k : AES.block) :
  AES.block_xor (AES.block_xor s k) k = s.
Proof.
  destruct s as [[[a b] c] d], k as [[[e f] g] h]; unfold AES.block_xor.
  now rewrite !wxor_cancel_r.
Qed.

Lemma add_round_key_involutive (k s : AES.block) :
  AES.add_round_key k (AES.add_round_key k s) = s.
Proof. apply block_xor_cancel_r. Qed.

Lemma inv_shift_rows_shift_rows (s : AES.block) :
  AES.inv_shift_rows (AES.shift_rows s) = s.
Proof.
  destruct s as [[[[[[a0 a1] a2] a3] [[[b0 b1] b2] b3]] [[[c0 c1] c2] c3]]
                 [[[d0 d1] d2] d3]].
  reflexivity.
Qed.

Lemma inv_sub_bytes_sub_bytes (s : AES.block) :
  AES.inv_sub_bytes (AES.sub_bytes s) = s.
Proof.
  destruct s as [[[[[[a0 a1] a2] a3] [[[b0 b1] b2] b3]] [[[c0 c1] c2] c3]]
                 [[[d0 d1] d2] d3]].
  unfold AES.inv_sub_bytes, AES.sub_bytes, AES.map_block, AES.sub_word,
    AES.map_word.
  now rewrite !inv_sub_byte_sub_byte.
Qed.

Lemma inv_mix_columns_mix_columns (s : AES.block) :
  AES.inv_mix_columns (AES.mix_columns s) = s.
Proof.
  destruct s as [[[a b] c] d].
  unfold AES.inv_mix_columns, AES.mix_columns, AES.map_block.
  now rewrite !inv_mix_column_mix_column.
Qed.

Lemma inv_round_round (k s : AES.block) :
  AES.inv_round k (AES.round k s) = s.
Proof.
  unfold AES.inv_round, AES.round.
  now rewrite add_round_key_involutive, inv_mix_columns_mix_columns,
    inv_shift_rows_shift_rows, inv_sub_bytes_sub_bytes.
Qed.

Lemma inv_final_round_final_round (k s : AES.block) :
  AES.inv_final_round k (AES.final_round k s) = s.
Proof.
  unfold AES.inv_final_round, AES.final_round.
  now rewrite add_round_key_involutive, inv_shift_rows_shift_rows,
    inv_sub_bytes_sub_bytes.
Qed.

Lemma inv_rounds_rounds (ks : list AES.block) (s : AES.block) :
  AES.inv_rounds ks (AES.rounds ks s) = s.
Proof.
  revert s. induction ks as [|k ks IH]; intros s.
  - reflexivity.
  - destruct ks as [|k' ks'].
    + apply inv_final_round_final_round.
    + change (AES.inv_round k
                (AES.inv_rounds (k' :: ks')
                   (AES.rounds (k' :: ks') (AES.round k s))) = s).
      now rewrite IH, inv_round_round.
Qed.

(** The inverse cipher undoes the cipher, whatever the round keys are. *)
Lemma inv_cipher_cipher (ks : list AES.block) (s : AES.block) :
  AES.inv_cipher ks (AES.cipher ks s) = s.
Proof.
  destruct ks as [|k0 ks]; [reflexivity|]. cbn [AES.inv_cipher AES.cipher].
  now rewrite inv_rounds_rounds, add_round_key_involutive.
Qed.

(** ** CBC mode *)

Lemma cbc_decrypt_encrypt (ks : list AES.block) (ps : list AES.block) :
  forall prev,
    Ciphers.cbc_decrypt ks prev (Ciphers.cbc_encrypt ks prev ps) = ps.
Proof.
  induction ps as [|p ps IH]; intros prev; cbn; [reflexivity|].
  now rewrite inv_cipher_cipher, block_xor_cancel_r, IH.
Qed.

Lemma blocks_of_bytes_of_blocks (l : list AES.block) :
  AES.blocks_of_bytes (AES.bytes_of_blocks l) = Some l.
Proof.
  induction l as [|s l IH]; [reflexivity|].
  destruct s as [[[[[[a0 a1] a2] a3] [[[b0 b1] b2] b3]] [[[c0 c1] c2] c3]]
                 [[[d0 d1] d2] d3]].
  unfold AES.bytes_of_blocks in *. cbn. now rewrite IH.
Qed.

Lemma blocks_of_bytes_inv (bs : bytes) :
  forall l, AES.blocks_of_bytes bs = Some l -> AES.bytes_of_blocks l = bs.
Proof.
  assert (H : forall n bs, (length bs <= n)%nat ->
            forall l, AES.blocks_of_bytes bs = Some l ->
                      AES.bytes_of_blocks l = bs).
  { clear bs. induction n as [|n IH]; intros bs Hn l E.
    - destruct bs; [|cbn in Hn; lia]. now inversion E.
    - destruct bs as [|a0 bs]; [now inversion E|].
      do 15 (destruct bs as [|? bs]; [discriminate E|]).
      cbn in E.
      destruct (AES.blocks_of_bytes bs) as [l'|] eqn:E'; [|discriminate].
      inversion E; subst l. unfold AES.bytes_of_blocks; cbn.
      f_equal. do 15 f_equal.
      apply (IH bs); [cbn in Hn; lia | exact E']. }
  intros l. apply (H (length bs)). lia.
Qed.

Lemma blocks_of_bytes_total (n : nat) :
  forall bs, length bs = (16 * n)%nat ->
             exists l, AES.blocks_of_bytes bs = Some l.
Proof.
  induction n as [|n IH]; intros bs H.
  - destruct bs; [|discriminate H]. now exists [].
  - do 16 (destruct bs as [|? bs]; [cbn in H; lia|]).
    destruct (IH bs) as [l E]; [cbn in H; lia|].
    cbn. rewrite E. eauto.
Qed.

(** ** PKCS#7 padding *)

Lemma pad_amount (len : nat) :
  let n := (PKCS7.block_len - len mod PKCS7.block_len)%nat in
  (1 <= n <= 16)%nat /\ (len + n = 16 * (len / 16 + 1))%nat.
Proof.
  unfold PKCS7.block_len.
  pose proof (Nat.mod_upper_bound len 16 ltac:(lia)).
  pose proof (Nat.div_mod_eq len 16). cbv zeta. lia.
Qed.

Lemma pad_length (data : bytes) :
  length (PKCS7.pad data) = (16 * (length data / 16 + 1))%nat.
Proof.
  unfold PKCS7.pad. rewrite length_app, repeat_length.
  apply (pad_amount (length data)).
Qed.

Lemma last_app_repeat {A : Type} (l : list A) (b d : A) (n : nat) :
  (1 <= n)%nat -> last (l ++ repeat b n) d = b.
Proof.
  intros Hn. destruct n as [|n]; [lia|].
  replace (S n) with (n + 1)%nat by lia.
  rewrite repeat_app, app_assoc. cbn [repeat]. apply last_last.
Qed.

Lemma forallb_repeat_eqb (b : byte) (n : nat) :
  forallb (Byte.eqb b) (repeat b n) = true.
Proof.
  induction n as [|n IH]; cbn; [reflexivity|].
  rewrite IH, andb_true_r. now apply Byte.byte_dec_lb.
Qed.

Lemma unpad_pad (data : bytes) : PKCS7.unpad (PKCS7.pad data) = Ok data.
Proof.
  unfold PKCS7.unpad. rewrite pad_length.
  destruct (pad_amount (length data)) as [Hn Hlen]. cbv zeta in Hn, Hlen.
  unfold PKCS7.pad.
  set (n := (PKCS7.block_len - length data mod PKCS7.block_len)%nat) in *.
  replace (Nat.eqb (16 * (length data / 16 + 1)) 0) with false
    by (symmetry; apply Nat.eqb_neq; lia).
  replace ((16 * (length data / 16 + 1)) mod PKCS7.block_len)%nat with 0%nat
    by (unfold PKCS7.block_len;
        now rewrite Nat.mul_comm, Nat.Div0.mod_mul).
  cbn [orb negb Nat.eqb].
  rewrite last_app_repeat by lia.
  rewrite N_of_byte_of_N by lia. rewrite Nnat.Nat2N.id.
  rewrite <- Hlen.
  replace (length data + n - n)%nat with (length data + 0)%nat by lia.
  rewrite skipn_app, firstn_app, Nat.add_0_r.
  rewrite skipn_all, firstn_all.
  replace (length data - length data)%nat with 0%nat by lia.
  cbn [skipn firstn app]. rewrite app_nil_r.
  rewrite forallb_repeat_eqb.
  replace (Nat.leb 1 n) with true by (symmetry; apply Nat.leb_le; lia).
  replace (Nat.leb n PKCS7.block_len) with true
    by (symmetry; apply Nat.leb_le; unfold PKCS7.block_len; lia).
  reflexivity.
Qed.

(** ** The UTF-8 codec on ASCII text *)

Lemma utf8_encode_ascii (s : pystr) :
  ascii_text s -> utf8_encode s = Ok (map byte_of_N s).
Proof.
  induction 1 as [|c s Hc _ IH]; [reflexivity|].
  cbn [utf8_encode map]. unfold utf8_encode_char.
  apply N.ltb_lt in Hc. rewrite Hc. cbn [bind]. rewrite IH. reflexivity.
Qed.

Lemma utf8_decode_ascii (s : pystr) :
  ascii_text s -> utf8_decode (map byte_of_N s) = Ok s.
Proof.
  induction 1 as [|c s Hc _ IH]; [reflexivity|].
  cbn [utf8_decode map]. rewrite N_of_byte_of_N by lia.
  apply N.ltb_lt in Hc. rewrite Hc, IH. reflexivity.
Qed.

(** ** Symmetric encryption *)

Lemma createCipher_32 (s : bytes) :
  length s = 32%nat ->
  createCipher s = Ok (Ciphers.mkCipher (AES.key_expansion s) iv_block).
Proof.
  intros H. unfold createCipher, Ciphers.new, Ciphers.algorithms_AES.
  rewrite H. reflexivity.
Qed.

(** Whatever cipher object [createCipher] returns, its IV is the constant. *)
Lemma createCipher_iv (s : bytes) (c : Ciphers.Cipher) :
  createCipher s = Ok c -> Ciphers.iv c = iv_block.
Proof.
  unfold createCipher, Ciphers.new.
  destruct (Ciphers.algorithms_AES s) as [ks|e]; cbn; [|discriminate].
  intros H. now inversion H.
Qed.

Lemma cipher_decrypt_encrypt (c : Ciphers.Cipher) (data e : bytes) :
  Ciphers.encrypt c data = Ok e -> Ciphers.decrypt c e = Ok data.
Proof.
  unfold Ciphers.encrypt, Ciphers.decrypt.
  destruct (AES.blocks_of_bytes data) as [ps|] eqn:E; [|discriminate].
  intros H; inversion H; subst e; clear H.
  rewrite blocks_of_bytes_of_blocks, cbc_decrypt_encrypt.
  f_equal. now apply blocks_of_bytes_inv.
Qed.

Lemma cipher_encrypt_padded (c : Ciphers.Cipher) (data : bytes) :
  exists e, Ciphers.encrypt c (PKCS7.pad data) = Ok e.
Proof.
  unfold Ciphers.encrypt.
  destruct (blocks_of_bytes_total (length data / 16 + 1) (PKCS7.pad data))
    as [l E]; [apply pad_length|].
  rewrite E. eauto.
Qed.

(** Decryption undoes encryption for every text that the codec round-trips
    and every key that [createCipher] accepts. *)
Lemma decryptMessage_encryptMessage (s : bytes) (m : pystr) (c : bytes) :
  (forall data, encode (PyStr m) = Ok data -> decode (PyBytes data) = Ok m) ->
  encryptMessage s m = Ok c -> decryptMessage s c = Ok m.
Proof.
  intros Hcodec. unfold encryptMessage, decryptMessage.
  destruct (encode (PyStr m)) as [data|] eqn:Ee; cbn [bind]; [|discriminate].
  destruct (createCipher s) as [ci|]; cbn [bind]; [|discriminate].
  destruct (Ciphers.encrypt ci (PKCS7.pad data)) as [e|] eqn:E;
    cbn [bind]; [|discriminate].
  intros H; inversion H; subst c; clear H.
  rewrite (cipher_decrypt_encrypt _ _ _ E). cbn [bind].
  rewrite unpad_pad. cbn [bind]. now apply Hcodec.
Qed.

Lemma encryptMessage_returns (s : bytes) (m : pystr) (data : bytes) :
  length s = 32%nat -> encode (PyStr m) = Ok data ->
  exists c, encryptMessage s m = Ok c.
Proof.
  intros Hs He. unfold encryptMessage. rewrite He. cbn [bind].
  rewrite (createCipher_32 _ Hs). cbn [bind].
  destruct (cipher_encrypt_padded
              (Ciphers.mkCipher (AES.key_expansion s) iv_block) data)
    as [e E].
  rewrite E. cbn [bind]. eauto.
Qed.

(** ** Big-endian numbers *)

Lemma N_of_byte_of_N_mod (n : N) : N_of_byte (byte_of_N n) = n mod 256.
Proof.
  unfold byte_of_N.
  assert (H : n mod 256 < 256) by (apply N.mod_lt; lia).
  rewrite <- (N_of_byte_of_N (n mod 256) H) at 2.
  unfold byte_of_N. now rewrite N.Div0.mod_mod.
Qed.

Lemma be_value_from (b : bytes) :
  forall init,
    fold_left (fun acc x => acc * 256 + N_of_byte x) b init =
    init * 256 ^ N.of_nat (length b) + be_value b.
Proof.
  unfold be_value. induction b as [|x b IH]; intros init.
  - cbn. lia.
  - cbn [fold_left length]. rewrite IH, (IH (0 * 256 + N_of_byte x)).
    rewrite Nnat.Nat2N.inj_succ, N.pow_succ_r'. lia.
Qed.

Lemma be_value_app (a b : bytes) :
  be_value (a ++ b) = be_value a * 256 ^ N.of_nat (length b) + be_value b.
Proof.
  unfold be_value at 1. rewrite fold_left_app. apply be_value_from.
Qed.

Lemma be_value_cons (x : byte) (b : bytes) :
  be_value (x :: b) = N_of_byte x * 256 ^ N.of_nat (length b) + be_value b.
Proof.
  change (x :: b) with ([x] ++ b). rewrite be_value_app.
  unfold be_value at 1. cbn [fold_left]. lia.
Qed.

Lemma be_digits_from_value (fuel : nat) :
  forall n acc, n < 2 ^ N.of_nat fuel ->
    be_value (be_digits_from fuel n acc) =
    n * 256 ^ N.of_nat (length acc) + be_value acc.
Proof.
  induction fuel as [|fuel IH]; intros n acc Hn.
  - change (2 ^ N.of_nat 0) with 1 in Hn. assert (n = 0) by lia. subst n.
    cbn [be_digits_from]. lia.
  - cbn [be_digits_from]. destruct (N.eqb_spec n 0) as [->|Hz]; [lia|].
    rewrite IH.
    + rewrite be_value_cons, N_of_byte_of_N_mod. cbn [length].
      rewrite Nnat.Nat2N.inj_succ, N.pow_succ_r'.
      pose proof (N.div_mod n 256 ltac:(lia)). nia.
    + rewrite Nnat.Nat2N.inj_succ, N.pow_succ_r' in Hn.
      apply N.Div0.div_lt_upper_bound. lia.
Qed.

Lemma be_value_digits (n : N) : be_value (be_digits n) = n.
Proof.
  unfold be_digits. rewrite be_digits_from_value.
  - cbn. lia.
  - rewrite Nnat.N2Nat.id. apply N.size_gt.
Qed.

Lemma be_digits_from_length (fuel : nat) :
  forall n acc k, n < 256 ^ N.of_nat k ->
    (length (be_digits_from fuel n acc) <= k + length acc)%nat.
Proof.
  induction fuel as [|fuel IH]; intros n acc k Hn; cbn [be_digits_from].
  - lia.
  - destruct (N.eqb_spec n 0) as [->|Hz]; [lia|].
    destruct k as [|k]; [cbn in Hn; lia|].
    specialize (IH (n / 256) (byte_of_N n :: acc) k).
    cbn [length] in IH. rewrite Nat.add_succ_l, <- Nat.add_succ_r.
    apply IH.
    rewrite Nnat.Nat2N.inj_succ, N.pow_succ_r' in Hn.
    apply N.Div0.div_lt_upper_bound. lia.
Qed.

Lemma be_digits_length (n : N) (k : nat) :
  n < 256 ^ N.of_nat k -> (length (be_digits n) <= k)%nat.
Proof.
  intros H. unfold be_digits.
  pose proof (be_digits_from_length (N.to_nat (N.size n)) n [] k H) as L.
  cbn [length] in L. lia.
Qed.

Lemma be_bytes_length (len : nat) (n : N) :
  n < 256 ^ N.of_nat len -> length (be_bytes len n) = len.
Proof.
  intros H. unfold be_bytes. rewrite length_app, repeat_length.
  pose proof (be_digits_length n len H). lia.
Qed.

(** ** Diffie-Hellman: both sides agree *)

Lemma pow_mod_pos_spec (b : N) (e : positive) (m : N) :
  DH.pow_mod_pos b e m = (b ^ Npos e) mod m.
Proof.
  induction e as [e IH|e IH|]; cbn [DH.pow_mod_pos].
  - rewrite IH, <- N.Div0.mul_mod, N.Div0.mul_mod_idemp_l.
    replace (N.pos e~1) with (N.pos e + N.pos e + 1) by lia.
    now rewrite !N.pow_add_r, N.pow_1_r.
  - rewrite IH, <- N.Div0.mul_mod.
    replace (N.pos e~0) with (N.pos e + N.pos e) by lia.
    now rewrite N.pow_add_r.
  - now rewrite N.pow_1_r.
Qed.

Lemma pow_mod_spec (b e m : N) : DH.pow_mod b e m = (b ^ e) mod m.
Proof.
  destruct e as [|e]; cbn [DH.pow_mod].
  - now rewrite N.pow_0_r.
  - apply pow_mod_pos_spec.
Qed.

Lemma pow_mod_base (b e m : N) : ((b mod m) ^ e) mod m = (b ^ e) mod m.
Proof.
  induction e as [|e IH] using N.peano_ind.
  - now rewrite !N.pow_0_r.
  - rewrite !N.pow_succ_r'.
    rewrite N.Div0.mul_mod, IH, N.Div0.mod_mod, <- N.Div0.mul_mod.
    reflexivity.
Qed.

(** [(g^b)^a] and [(g^a)^b] agree modulo [m]. *)
Lemma pow_mod_exchange (gen a b m : N) :
  DH.pow_mod (DH.pow_mod gen b m) a m = DH.pow_mod (DH.pow_mod gen a m) b m.
Proof.
  rewrite !pow_mod_spec, !pow_mod_base, <- !N.pow_mul_r.
  now rewrite N.mul_comm.
Qed.

Lemma parameters_eqb_refl (ps : DH.DHParameters) :
  DH.parameters_eqb ps ps = true.
Proof. unfold DH.parameters_eqb. now rewrite !N.eqb_refl. Qed.

Lemma parameters_eqb_eq (a b : DH.DHParameters) :
  DH.parameters_eqb a b = true -> a = b.
Proof.
  unfold DH.parameters_eqb. intros H. apply andb_true_iff in H.
  destruct H as [Hp Hg]. apply N.eqb_eq in Hp, Hg.
  destruct a, b; cbn in *; congruence.
Qed.

Lemma exchange_symmetric (ps : DH.DHParameters) (xa xb : N) :
  let a := DH.generate_private_key ps xa in
  let b := DH.generate_private_key ps xb in
  DH.exchange a (DH.public_key b) = DH.exchange b (DH.public_key a).
Proof.
  cbv zeta. unfold DH.exchange, DH.public_key, DH.generate_private_key.
  cbn [DH.private_parameters DH.public_parameters DH.x DH.y].
  rewrite parameters_eqb_refl. now rewrite pow_mod_exchange.
Qed.

Lemma computeSharedSecret_symmetric (ps : DH.DHParameters) (xa xb : N) :
  computeSharedSecret (fst (generateKeys ps xa)) (snd (generateKeys ps xb)) =
  computeSharedSecret (fst (generateKeys ps xb)) (snd (generateKeys ps xa)).
Proof.
  unfold computeSharedSecret, generateKeys. cbn [fst snd].
  now rewrite (exchange_symmetric ps xa xb).
Qed.

Lemma computeSharedSecret_returns (ps : DH.DHParameters) (xa xb : N) :
  returns
    (computeSharedSecret (fst (generateKeys ps xa)) (snd (generateKeys ps xb))).
Proof.
  unfold computeSharedSecret, generateKeys, DH.exchange, DH.public_key,
    DH.generate_private_key.
  cbn [fst snd DH.private_parameters DH.public_parameters DH.x DH.y].
  rewrite parameters_eqb_refl. cbn [bind]. eexists. reflexivity.
Qed.

(** ** Base64 *)

(** Linear arithmetic with division and remainder by constants. *)
Ltac divmod := zify; Z.to_euclidean_division_equations; lia.

Lemma below_64_cases (P : N -> Prop) :
  Forall P (map N.of_nat (seq 0 64)) -> forall n, n < 64 -> P n.
Proof.
  intros H n Hn. rewrite Forall_forall in H. apply H.
  rewrite <- (Nnat.N2Nat.id n). apply in_map. apply in_seq. lia.
Qed.

Lemma index_of_char_of (n : N) :
  n < 64 -> Base64.index_of (Base64.char_of n) = Some n.
Proof.
  revert n. apply below_64_cases.
  repeat (apply Forall_cons; [reflexivity|]). apply Forall_nil.
Qed.

Lemma index_of_pad : Base64.index_of Base64.pad_char = None.
Proof. reflexivity. Qed.

Lemma byte_of_N_eq (v : N) (b : byte) :
  v mod 256 = N_of_byte b -> byte_of_N v = b.
Proof.
  intros H. rewrite <- (byte_of_N_of_byte b), <- H.
  unfold byte_of_N. now rewrite N.Div0.mod_mod.
Qed.

Lemma decode_encode_1 (a : byte) :
  Base64.decode (Base64.encode [a]) = Some [a].
Proof.
  pose proof (N_of_byte_lt a) as Ha.
  cbn [Base64.encode Base64.decode].
  rewrite !index_of_char_of by divmod. rewrite index_of_pad.
  replace ((N_of_byte a mod 4 * 16) mod 16 =? 0) with true
    by (symmetry; apply N.eqb_eq; divmod).
  cbn. do 2 f_equal. apply byte_of_N_eq. divmod.
Qed.

Lemma decode_encode_2 (a b : byte) :
  Base64.decode (Base64.encode [a; b]) = Some [a; b].
Proof.
  pose proof (N_of_byte_lt a) as Ha. pose proof (N_of_byte_lt b) as Hb.
  cbn [Base64.encode Base64.decode].
  rewrite !index_of_char_of by divmod. rewrite index_of_pad.
  replace (((N_of_byte a * 256 + N_of_byte b) mod 16 * 4) mod 4 =? 0)
    with true by (symmetry; apply N.eqb_eq; divmod).
  cbn. do 2 f_equal; [|f_equal]; apply byte_of_N_eq; divmod.
Qed.

Lemma decode_encode_3 (a b c : byte) (r : bytes) :
  Base64.decode (Base64.encode r) = Some r ->
  Base64.decode (Base64.encode (a :: b :: c :: r)) = Some (a :: b :: c :: r).
Proof.
  intros IH.
  pose proof (N_of_byte_lt a) as Ha. pose proof (N_of_byte_lt b) as Hb.
  pose proof (N_of_byte_lt c) as Hc.
  cbn [Base64.encode Base64.decode].
  rewrite !index_of_char_of by divmod. rewrite IH.
  do 2 f_equal; [|f_equal; [|f_equal]]; apply byte_of_N_eq; divmod.
Qed.

Lemma base64_decode_encode (bs : bytes) :
  Base64.decode (Base64.encode bs) = Some bs.
Proof.
  assert (H : forall n bs, (length bs <= n)%nat ->
                           Base64.decode (Base64.encode bs) = Some bs).
  { clear bs. induction n as [|n IH]; intros bs Hn.
    - destruct bs; [reflexivity|cbn in Hn; lia].
    - destruct bs as [|a [|b [|c r]]].
      + reflexivity.
      + apply decode_encode_1.
      + apply decode_encode_2.
      + apply decode_encode_3. apply IH. cbn in Hn. lia. }
  apply (H (length bs)). lia.
Qed.

(** ** DER *)

Lemma byte_eqb_refl (b : byte) : Byte.eqb b b = true.
Proof. now apply Byte.byte_dec_lb. Qed.

Lemma byte_eqb_eq (a b : byte) : Byte.eqb a b = true -> a = b.
Proof. apply Byte.byte_dec_bl. Qed.

Lemma be_digits_from_head (fuel : nat) :
  forall n acc, n < 2 ^ N.of_nat fuel -> n <> 0 ->
    exists b rest, be_digits_from fuel n acc = b :: rest /\ b <> x00.
Proof.
  induction fuel as [|fuel IH]; intros n acc Hn Hz.
  - change (2 ^ N.of_nat 0) with 1 in Hn. lia.
  - cbn [be_digits_from]. destruct (N.eqb_spec n 0) as [|_]; [contradiction|].
    rewrite Nnat.Nat2N.inj_succ, N.pow_succ_r' in Hn.
    destruct (N.eq_dec (n / 256) 0) as [E|E].
    + rewrite E.
      assert (R : be_digits_from fuel 0 (byte_of_N n :: acc)
                  = byte_of_N n :: acc) by (destruct fuel; reflexivity).
      rewrite R. exists (byte_of_N n), acc. split; [reflexivity|].
      intros Hb. apply (f_equal N_of_byte) in Hb.
      rewrite N_of_byte_of_N_mod in Hb. cbn in Hb.
      apply N.div_small_iff in E; [|lia].
      rewrite N.mod_small in Hb by exact E. contradiction.
    + apply IH; [|exact E]. apply N.Div0.div_lt_upper_bound. lia.
Qed.

Lemma be_digits_head (n : N) (b : byte) (rest : bytes) :
  be_digits n = b :: rest -> b <> x00.
Proof.
  intros E. destruct (N.eq_dec n 0) as [->|Hz]; [discriminate E|].
  destruct (be_digits_from_head (N.to_nat (N.size n)) n []) as (b' & r' & E' & Hb).
  - rewrite Nnat.N2Nat.id. apply N.size_gt.
  - exact Hz.
  - unfold be_digits in E. rewrite E in E'. now inversion E'; subst.
Qed.

Lemma decode_encode_length (n : nat) (r : bytes) :
  small n -> DER.decode_length (DER.encode_length n ++ r) = Some (n, r).
Proof.
  unfold small. intros Hn. unfold DER.encode_length.
  destruct (Nat.ltb_spec n 128) as [Hlt|Hge].
  - cbn [app DER.decode_length]. rewrite N_of_byte_of_N by lia.
    replace (N.of_nat n <? 128) with true by (symmetry; apply N.ltb_lt; lia).
    now rewrite Nnat.Nat2N.id.
  - set (d := be_digits (N.of_nat n)).
    pose proof (be_digits_length (N.of_nat n) 8 Hn) as Hlen. fold d in Hlen.
    pose proof (be_value_digits (N.of_nat n)) as Hval. fold d in Hval.
    cbn [app DER.decode_length].
    rewrite N_of_byte_of_N by lia.
    replace (128 + N.of_nat (length d) <? 128) with false
      by (symmetry; apply N.ltb_ge; lia).
    replace (N.to_nat (128 + N.of_nat (length d) - 128)) with (length d)
      by lia.
    rewrite firstn_app, Nat.sub_diag, firstn_all. cbn [firstn].
    rewrite app_nil_r, Nat.eqb_refl, Hval.
    replace (128 <=? N.of_nat n) with true by (symmetry; apply N.leb_le; lia).
    rewrite skipn_app, Nat.sub_diag, skipn_all. cbn [skipn app andb].
    destruct d as [|b0 d'] eqn:Ed.
    + cbn in Hval. lia.
    + pose proof (be_digits_head (N.of_nat n) b0 d' Ed) as Hb.
      destruct (Byte.eqb b0 x00) eqn:Eb;
        [apply byte_eqb_eq in Eb; contradiction|].
      cbn [negb]. now rewrite Nnat.Nat2N.id.
Qed.

Lemma decode_tlv_tlv (tag : byte) (content r : bytes) :
  small (length content) ->
  DER.decode_tlv tag (DER.tlv tag content ++ r) = Some (content, r).
Proof.
  intros Hs. unfold DER.tlv, DER.decode_tlv. cbn [app].
  rewrite byte_eqb_refl, <- app_assoc, decode_encode_length by exact Hs.
  replace (Nat.leb (length content) (length (content ++ r))) with true
    by (symmetry; apply Nat.leb_le; rewrite length_app; lia).
  rewrite firstn_app, skipn_app, Nat.sub_diag, firstn_all, skipn_all.
  cbn [firstn skipn]. now rewrite app_nil_r.
Qed.

Lemma encode_length_length (n : nat) :
  small n -> (length (DER.encode_length n) <= 9)%nat.
Proof.
  intros Hs. unfold DER.encode_length.
  destruct (Nat.ltb n 128); cbn [length]; [lia|].
  pose proof (be_digits_length (N.of_nat n) 8 Hs). lia.
Qed.

Lemma tlv_length (tag : byte) (content : bytes) :
  small (length content) ->
  (length (DER.tlv tag content) <= length content + 10)%nat.
Proof.
  intros Hs. unfold DER.tlv. cbn [length]. rewrite length_app.
  pose proof (encode_length_length _ Hs). lia.
Qed.

Lemma integer_content_length (n : N) (k : nat) :
  n < 256 ^ N.of_nat k -> (1 <= length (DER.integer_content n) <= k + 1)%nat.
Proof.
  intros H. pose proof (be_digits_length n k H) as L.
  unfold DER.integer_content.
  destruct (be_digits n) as [|b d]; [cbn; lia|].
  destruct (0x80 <=? N_of_byte b); cbn [length] in *; lia.
Qed.

Lemma integer_content_decodes (n : N) :
  match DER.integer_content n with
  | [] => False
  | b :: d =>
      (N_of_byte b <? 0x80) = true /\
      match d with
      | [] => true
      | b1 :: _ => negb (Byte.eqb b x00) || (0x80 <=? N_of_byte b1)
      end = true /\
      be_value (b :: d) = n
  end.
Proof.
  unfold DER.integer_content.
  pose proof (be_value_digits n) as Hval.
  destruct (be_digits n) as [|b d] eqn:E.
  - repeat split. cbn in Hval. now rewrite <- Hval.
  - pose proof (be_digits_head n b d E) as Hb.
    destruct (N.leb_spec 0x80 (N_of_byte b)) as [Hhi|Hlo].
    + split; [reflexivity|]. split.
      * cbn [Byte.eqb negb orb]. now apply N.leb_le.
      * rewrite be_value_cons. cbn [N_of_byte Byte.to_N]. lia.
    + split; [now apply N.ltb_lt|]. split; [|exact Hval].
      destruct d; [reflexivity|].
      destruct (Byte.eqb b x00) eqn:Eb;
        [apply byte_eqb_eq in Eb; contradiction|reflexivity].
Qed.

Lemma decode_encode_integer (n : N) (r : bytes) :
  small (length (DER.integer_content n)) ->
  DER.decode_integer (DER.encode_integer n ++ r) = Some (n, r).
Proof.
  intros Hs. unfold DER.decode_integer, DER.encode_integer.
  rewrite decode_tlv_tlv by exact Hs.
  pose proof (integer_content_decodes n) as H.
  destruct (DER.integer_content n) as [|b d]; [contradiction|].
  destruct H as (H1 & H2 & H3). now rewrite H1, H2, H3.
Qed.

Lemma strip_prefix_app (pre bs : bytes) :
  DER.strip_prefix pre (pre ++ bs) = Some bs.
Proof.
  induction pre as [|a pre IH]; [reflexivity|].
  cbn. now rewrite byte_eqb_refl.
Qed.

Lemma decode_tlv_tlv_end (tag : byte) (content : bytes) :
  small (length content) ->
  DER.decode_tlv tag (DER.tlv tag content) = Some (content, []).
Proof.
  intros Hs. rewrite <- (app_nil_r (DER.tlv tag content)).
  now apply decode_tlv_tlv.
Qed.

Lemma decode_encode_integer_end (n : N) :
  small (length (DER.integer_content n)) ->
  DER.decode_integer (DER.encode_integer n) = Some (n, []).
Proof.
  intros Hs. rewrite <- (app_nil_r (DER.encode_integer n)).
  now apply decode_encode_integer.
Qed.

Lemma small_le (n m : nat) : (n <= m)%nat -> (m <= 4000)%nat -> small n.
Proof. unfold small. intros H1 H2. change (256 ^ 8) with 18446744073709551616. lia. Qed.

Lemma encode_integer_length (n : N) :
  bounded n ->
  small (length (DER.integer_content n)) /\
  (length (DER.encode_integer n) <= 1261)%nat.
Proof.
  intros Hb. pose proof (integer_content_length n 1250 Hb) as L.
  assert (Hs : small (length (DER.integer_content n)))
    by (eapply small_le; [reflexivity|lia]).
  split; [exact Hs|].
  unfold DER.encode_integer. pose proof (tlv_length DER.tag_integer _ Hs). lia.
Qed.

Lemma decode_encode_public_key (k : DH.DHPublicKey) :
  bounded (DH.p (DH.public_parameters k)) ->
  bounded (DH.g (DH.public_parameters k)) ->
  bounded (DH.y k) ->
  DER.decode_public_key (DER.encode_public_key k) = Some k.
Proof.
  destruct k as [[p g] y]. cbn [DH.public_parameters DH.p DH.g DH.y].
  intros Hp Hg Hy.
  destruct (encode_integer_length p Hp) as [Sp Lp].
  destruct (encode_integer_length g Hg) as [Sg Lg].
  destruct (encode_integer_length y Hy) as [Sy Ly].
  unfold DER.encode_public_key, DER.decode_public_key.
  cbn [DH.public_parameters DH.p DH.g DH.y].
  set (pg := DER.encode_integer p ++ DER.encode_integer g).
  assert (Spg : small (length pg))
    by (eapply small_le; [reflexivity|unfold pg; rewrite length_app; lia]).
  pose proof (tlv_length DER.tag_sequence pg Spg) as Lparams.
  assert (Lpg : (length pg <= 2522)%nat)
    by (unfold pg; rewrite length_app; lia).
  set (alg := DER.dh_oid ++ DER.tlv DER.tag_sequence pg).
  assert (Lalg : (length alg <= 2543)%nat)
    by (unfold alg; rewrite length_app; cbn [length DER.dh_oid]; lia).
  assert (Salg : small (length alg)) by (eapply small_le; [reflexivity|lia]).
  pose proof (tlv_length DER.tag_sequence alg Salg) as Lalgt.
  set (bits := x00 :: DER.encode_integer y).
  assert (Lbits : (length bits <= 1262)%nat) by (unfold bits; cbn [length]; lia).
  assert (Sbits : small (length bits)) by (eapply small_le; [reflexivity|lia]).
  pose proof (tlv_length DER.tag_bit_string bits Sbits) as Lbitst.
  set (spki := DER.tlv DER.tag_sequence alg ++ DER.tlv DER.tag_bit_string bits).
  assert (Sspki : small (length spki))
    by (eapply small_le; [reflexivity|unfold spki; rewrite length_app; lia]).
  rewrite decode_tlv_tlv_end by exact Sspki.
  unfold spki. rewrite decode_tlv_tlv by exact Salg.
  unfold alg. rewrite strip_prefix_app.
  rewrite decode_tlv_tlv_end by exact Spg.
  unfold pg. rewrite decode_encode_integer by exact Sp.
  rewrite decode_encode_integer_end by exact Sg.
  rewrite decode_tlv_tlv_end by exact Sbits.
  unfold bits. rewrite decode_encode_integer_end by exact Sy.
  reflexivity.
Qed.

(** ** PEM *)

Lemma alphabet_ascii : ascii_bytes (Base64.pad_char :: Base64.alphabet).
Proof.
  repeat (apply Forall_cons;
          [split; [split; [reflexivity|discriminate]|discriminate]|]).
  apply Forall_nil.
Qed.

Lemma char_of_ascii (n : N) :
  text_octet (Base64.char_of n) /\ Base64.char_of n <> PEM.newline.
Proof.
  pose proof alphabet_ascii as H. unfold ascii_bytes in H.
  rewrite Forall_forall in H. apply H.
  unfold Base64.char_of.
  destruct (nth_in_or_default (N.to_nat n) Base64.alphabet Base64.pad_char)
    as [Hin|E]; [now right|rewrite E; now left].
Qed.

Lemma pad_char_ascii :
  text_octet Base64.pad_char /\ Base64.pad_char <> PEM.newline.
Proof. split; [split; [reflexivity|discriminate]|discriminate]. Qed.

Lemma encode_ascii (bs : bytes) : ascii_bytes (Base64.encode bs).
Proof.
  assert (H : forall n bs, (length bs <= n)%nat ->
                           ascii_bytes (Base64.encode bs)).
  { clear bs. induction n as [|n IH]; intros bs Hn.
    - destruct bs; [apply Forall_nil|cbn in Hn; lia].
    - destruct bs as [|a [|b [|c r]]]; cbn [Base64.encode].
      + apply Forall_nil.
      + repeat apply Forall_cons;
          auto using char_of_ascii, pad_char_ascii, Forall_nil.
      + repeat apply Forall_cons;
          auto using char_of_ascii, pad_char_ascii, Forall_nil.
      + repeat apply Forall_cons; auto using char_of_ascii.
        apply IH. cbn in Hn. lia. }
  apply (H (length bs)). lia.
Qed.

Lemma unwrap_wrap (cs : bytes) :
  ascii_bytes cs -> forall col, PEM.unwrap (PEM.wrap col cs) = cs.
Proof.
  unfold PEM.unwrap.
  induction 1 as [|c cs [_ Hc] _ IH]; intros col; cbn [PEM.wrap].
  - destruct (Nat.eqb col 0); reflexivity.
  - assert (E : Byte.eqb c PEM.newline = false).
    { destruct (Byte.eqb c PEM.newline) eqn:E; [|reflexivity].
      apply byte_eqb_eq in E. contradiction. }
    destruct (Nat.eqb col 64); cbn [filter]; rewrite ?byte_eqb_refl;
      cbn [negb]; rewrite E; cbn [negb]; now rewrite IH.
Qed.

Lemma newline_text : text_octet PEM.newline.
Proof. split; [reflexivity|discriminate]. Qed.

Lemma wrap_text (cs : bytes) :
  ascii_bytes cs -> forall col, Forall text_octet (PEM.wrap col cs).
Proof.
  induction 1 as [|c cs [Hc _] _ IH]; intros col; cbn [PEM.wrap].
  - destruct (Nat.eqb col 0); auto using Forall_cons, Forall_nil, newline_text.
  - destruct (Nat.eqb col 64); auto using Forall_cons, newline_text.
Qed.

Lemma strip_suffix_app (suf bs : bytes) :
  PEM.strip_suffix suf (bs ++ suf) = Some bs.
Proof.
  unfold PEM.strip_suffix. rewrite length_app.
  replace (length bs + length suf - length suf)%nat with (length bs) by lia.
  rewrite skipn_app, firstn_app, Nat.sub_diag, skipn_all, firstn_all.
  cbn [skipn firstn app]. rewrite app_nil_r.
  rewrite <- (app_nil_r suf) at 2. now rewrite strip_prefix_app.
Qed.

Lemma load_public_bytes (k : DH.DHPublicKey) :
  bounded (DH.p (DH.public_parameters k)) ->
  bounded (DH.g (DH.public_parameters k)) ->
  bounded (DH.y k) ->
  PEM.load_pem_public_key (PEM.public_bytes k) = Ok k.
Proof.
  intros Hp Hg Hy. unfold PEM.load_pem_public_key, PEM.public_bytes.
  rewrite strip_prefix_app, strip_suffix_app.
  rewrite unwrap_wrap by apply encode_ascii.
  rewrite base64_decode_encode.
  now rewrite decode_encode_public_key.
Qed.

Lemma public_bytes_text (k : DH.DHPublicKey) :
  Forall text_octet (PEM.public_bytes k).
Proof.
  unfold PEM.public_bytes. repeat rewrite Forall_app. repeat split.
  - repeat (apply Forall_cons; [split; [reflexivity|discriminate]|]).
    apply Forall_nil.
  - apply wrap_text, encode_ascii.
  - repeat (apply Forall_cons; [split; [reflexivity|discriminate]|]).
    apply Forall_nil.
Qed.

Lemma public_bytes_7bit (k : DH.DHPublicKey) :
  Forall (fun b => N_of_byte b < 128) (PEM.public_bytes k).
Proof.
  eapply Forall_impl; [|apply public_bytes_text]. now intros b [Hb _].
Qed.

Lemma utf8_decode_7bit (bs : bytes) :
  Forall (fun b => N_of_byte b < 128) bs ->
  utf8_decode bs = Ok (map N_of_byte bs).
Proof.
  induction 1 as [|b bs Hb _ IH]; [reflexivity|].
  cbn [utf8_decode map]. apply N.ltb_lt in Hb. now rewrite Hb, IH.
Qed.

Lemma utf8_encode_7bit (bs : bytes) :
  Forall (fun b => N_of_byte b < 128) bs ->
  utf8_encode (map N_of_byte bs) = Ok bs.
Proof.
  induction 1 as [|b bs Hb _ IH]; [reflexivity|].
  cbn [utf8_encode map]. unfold utf8_encode_char.
  apply N.ltb_lt in Hb. rewrite Hb, IH. cbn [bind app].
  now rewrite byte_of_N_of_byte.
Qed.

Lemma serializePublicKey_text (k : DH.DHPublicKey) :
  serializePublicKey k = Ok (map N_of_byte (PEM.public_bytes k)).
Proof.
  unfold serializePublicKey, decode.
  now rewrite utf8_decode_7bit by apply public_bytes_7bit.
Qed.

(** The text of a serialised key holds no ['#']. *)
Lemma serialized_no_hash (k : DH.DHPublicKey) (text : pystr) :
  serializePublicKey k = Ok text -> ~ In hash text.
Proof.
  rewrite serializePublicKey_text. intros H. apply Ok_inj in H. subst text.
  intros Hin. apply in_map_iff in Hin. destruct Hin as (b & Hb & Hin).
  pose proof (public_bytes_text k) as F. rewrite Forall_forall in F.
  destruct (F b Hin) as [_ Hne]. apply Hne.
  rewrite <- (byte_of_N_of_byte b), Hb. reflexivity.
Qed.

(** A serialised key deserialises to the key it came from. *)
Lemma deserialize_serialize (k : DH.DHPublicKey) :
  bounded (DH.p (DH.public_parameters k)) ->
  bounded (DH.g (DH.public_parameters k)) ->
  bounded (DH.y k) ->
  exists text,
    serializePublicKey k = Ok text /\ deserializePublicKey text = Ok k.
Proof.
  intros Hp Hg Hy. exists (map N_of_byte (PEM.public_bytes k)).
  split; [apply serializePublicKey_text|].
  unfold deserializePublicKey, encode.
  rewrite utf8_encode_7bit by apply public_bytes_7bit.
  cbn [bind]. now apply load_public_bytes.
Qed.

Lemma size_bounded (n : N) : N.size n <= 10000 -> bounded n.
Proof.
  intros H. unfold bounded.
  apply N.lt_le_trans with (2 ^ N.size n); [apply N.size_gt|].
  change (256 ^ 1250) with ((2 ^ 8) ^ 1250). rewrite <- N.pow_mul_r.
  apply N.pow_le_mono_r; lia.
Qed.

Lemma generated_key_bounded (ps : DH.DHParameters) (secret : N) :
  DH.p ps <> 0 -> bounded (DH.p ps) ->
  bounded (DH.y (snd (generateKeys ps secret))).
Proof.
  intros Hz Hb. unfold generateKeys, DH.public_key, DH.generate_private_key.
  cbn [snd DH.y DH.private_parameters DH.x]. rewrite pow_mod_spec.
  unfold bounded in *.
  apply N.lt_trans with (DH.p ps); [now apply N.mod_lt|exact Hb].
Qed.

(** ** The UTF-8 codec in general *)

(** Decides the comparisons of the goal, closing the impossible cases by
    arithmetic. *)
Ltac decide_tests :=
  repeat match goal with
         | |- context [N.ltb ?a ?b] =>
             destruct (N.ltb_spec a b); try (exfalso; divmod)
         | |- context [N.leb ?a ?b] =>
             destruct (N.leb_spec a b); try (exfalso; divmod)
         end.

Lemma utf8_decode_encode_char (c : N) (bs rest : bytes) (s : pystr) :
  utf8_encode_char c = Ok bs -> utf8_decode rest = Ok s ->
  utf8_decode (bs ++ rest) = Ok (c :: s).
Proof.
  unfold utf8_encode_char, is_surrogate. intros He Hr.
  destruct (N.ltb_spec c 0x80).
  { apply Ok_inj in He; subst bs. cbn [app utf8_decode].
    rewrite N_of_byte_of_N by lia. decide_tests. now rewrite Hr. }
  destruct (N.ltb_spec c 0x800).
  { apply Ok_inj in He; subst bs. cbn [app utf8_decode].
    unfold is_cont, cont_bits. rewrite !N_of_byte_of_N by divmod.
    decide_tests. cbn [andb]. rewrite Hr. cbn [bind]. do 2 f_equal. divmod. }
  destruct (N.ltb_spec c 0x10000).
  { destruct (N.leb_spec 0xD800 c); destruct (N.leb_spec c 0xDFFF);
      cbn [andb] in He; try discriminate He;
      apply Ok_inj in He; subst bs; cbn [app utf8_decode];
      unfold is_cont, cont_bits, is_surrogate;
      rewrite !N_of_byte_of_N by divmod;
      decide_tests; cbn [andb negb]; rewrite Hr; cbn [bind];
      do 2 f_equal; divmod. }
  destruct (N.ltb_spec c 0x110000); [|discriminate He].
  apply Ok_inj in He; subst bs. cbn [app utf8_decode].
  unfold is_cont, cont_bits. rewrite !N_of_byte_of_N by divmod.
  decide_tests. cbn [andb]. rewrite Hr. cbn [bind]. do 2 f_equal. divmod.
Qed.

(** Decoding undoes encoding. *)
Lemma utf8_decode_encode (s : pystr) (bs : bytes) :
  utf8_encode s = Ok bs -> utf8_decode bs = Ok s.
Proof.
  revert bs. induction s as [|c s IH]; intros bs H; cbn [utf8_encode] in H.
  - inversion H. reflexivity.
  - destruct (utf8_encode_char c) as [b|] eqn:Ec; cbn [bind] in H;
      [|discriminate].
    destruct (utf8_encode s) as [r|]; cbn [bind] in H; [|discriminate].
    inversion H. apply utf8_decode_encode_char; [exact Ec|now apply IH].
Qed.

Lemma is_cont_spec (b : byte) :
  is_cont b = true -> 0x80 <= N_of_byte b < 0xC0.
Proof.
  unfold is_cont. intros H. apply andb_true_iff in H. destruct H as [H1 H2].
  apply N.leb_le in H1. apply N.ltb_lt in H2. lia.
Qed.

(** Turns the boolean tests that hold into arithmetic facts. *)
Ltac tests_to_facts :=
  repeat match goal with
         | H : (_ && _) = true |- _ =>
             apply andb_true_iff in H; destruct H
         | H : is_cont _ = true |- _ => apply is_cont_spec in H
         | H : N.leb _ _ = true |- _ => apply N.leb_le in H
         | H : N.ltb _ _ = true |- _ => apply N.ltb_lt in H
         | H : negb (is_surrogate _) = true |- _ =>
             unfold is_surrogate in H; apply negb_true_iff in H;
             apply andb_false_iff in H
         | H : N.leb _ _ = false |- _ => apply N.leb_gt in H
         end.

Lemma utf8_encode_2 (b0 b1 : byte) :
  let c := (N_of_byte b0 mod 32) * 64 + cont_bits b1 in
  0xC0 <= N_of_byte b0 < 0xE0 -> (is_cont b1 && (0x80 <=? c)) = true ->
  utf8_encode_char c = Ok [b0; b1].
Proof.
  cbv zeta. unfold cont_bits, utf8_encode_char. intros H0 H. tests_to_facts.
  decide_tests. do 2 f_equal; [|f_equal]; apply byte_of_N_eq; divmod.
Qed.

Lemma utf8_encode_3 (b0 b1 b2 : byte) :
  let c := (N_of_byte b0 mod 16) * 4096 + cont_bits b1 * 64 + cont_bits b2 in
  0xE0 <= N_of_byte b0 < 0xF0 ->
  (is_cont b1 && is_cont b2 && (0x800 <=? c) && negb (is_surrogate c)) = true ->
  utf8_encode_char c = Ok [b0; b1; b2].
Proof.
  cbv zeta. unfold cont_bits, utf8_encode_char. intros H0 H. tests_to_facts.
  decide_tests.
  replace (is_surrogate _) with false.
  - do 2 f_equal; [|f_equal; [|f_equal]]; apply byte_of_N_eq; divmod.
  - symmetry. unfold is_surrogate. apply andb_false_iff.
    match goal with H : _ \/ _ |- _ => destruct H as [H|H] end;
      tests_to_facts; [left; apply N.leb_gt|right; apply N.leb_gt]; assumption.
Qed.

Lemma utf8_encode_4 (b0 b1 b2 b3 : byte) :
  let c := (N_of_byte b0 mod 8) * 262144 + cont_bits b1 * 4096
           + cont_bits b2 * 64 + cont_bits b3 in
  0xF0 <= N_of_byte b0 < 0xF8 ->
  (is_cont b1 && is_cont b2 && is_cont b3
   && (0x10000 <=? c) && (c <? 0x110000)) = true ->
  utf8_encode_char c = Ok [b0; b1; b2; b3].
Proof.
  cbv zeta. unfold cont_bits, utf8_encode_char. intros H0 H. tests_to_facts.
  decide_tests.
  do 2 f_equal; [|f_equal; [|f_equal; [|f_equal]]]; apply byte_of_N_eq; divmod.
Qed.

(** Encoding undoes decoding. *)
Lemma utf8_encode_decode (bs : bytes) (s : pystr) :
  utf8_decode bs = Ok s -> utf8_encode s = Ok bs.
Proof.
  assert (H : forall n bs, (length bs <= n)%nat ->
            forall s, utf8_decode bs = Ok s -> utf8_encode s = Ok bs).
  { clear bs s. induction n as [|n IH]; intros bs Hn s H.
    - destruct bs; [|cbn in Hn; lia]. cbn in H. apply Ok_inj in H.
      now subst s.
    - destruct bs as [|b0 r0]; [cbn in H; apply Ok_inj in H; now subst s|].
      cbn [utf8_decode] in H. cbv zeta in H. cbn [length] in Hn.
      destruct (N.ltb_spec (N_of_byte b0) 0x80) as [L1|L1].
      { destruct (utf8_decode r0) as [s'|] eqn:E; cbn [bind] in H;
          [|discriminate].
        apply Ok_inj in H. subst s. cbn [utf8_encode].
        unfold utf8_encode_char. apply N.ltb_lt in L1. rewrite L1.
        cbn [bind]. rewrite (IH r0) with (s := s') by (auto; lia).
        cbn [bind app]. now rewrite byte_of_N_of_byte. }
      destruct (N.ltb_spec (N_of_byte b0) 0xC0) as [L2|L2]; [discriminate|].
      destruct (N.ltb_spec (N_of_byte b0) 0xE0) as [L3|L3].
      { destruct r0 as [|b1 r1]; [discriminate|].
        destruct (is_cont b1 && _) eqn:T; [|discriminate].
        destruct (utf8_decode r1) as [s'|] eqn:E; cbn [bind] in H;
          [|discriminate].
        apply Ok_inj in H. subst s. cbn [utf8_encode].
        rewrite utf8_encode_2 by (auto; lia). cbn [bind].
        cbn [length] in Hn.
        rewrite (IH r1) with (s := s') by (auto; lia). reflexivity. }
      destruct (N.ltb_spec (N_of_byte b0) 0xF0) as [L4|L4].
      { destruct r0 as [|b1 [|b2 r2]]; try discriminate.
        destruct (is_cont b1 && _ && _ && _) eqn:T; [|discriminate].
        destruct (utf8_decode r2) as [s'|] eqn:E; cbn [bind] in H;
          [|discriminate].
        apply Ok_inj in H. subst s. cbn [utf8_encode].
        rewrite utf8_encode_3 by (auto; lia). cbn [bind].
        cbn [length] in Hn.
        rewrite (IH r2) with (s := s') by (auto; lia). reflexivity. }
      destruct (N.ltb_spec (N_of_byte b0) 0xF8) as [L5|L5]; [|discriminate].
      destruct r0 as [|b1 [|b2 [|b3 r3]]]; try discriminate.
      destruct (is_cont b1 && _ && _ && _ && _) eqn:T; [|discriminate].
      destruct (utf8_decode r3) as [s'|] eqn:E; cbn [bind] in H;
        [|discriminate].
      apply Ok_inj in H. subst s. cbn [utf8_encode].
      rewrite utf8_encode_4 by (auto; lia). cbn [bind].
      cbn [length] in Hn.
      rewrite (IH r3) with (s := s') by (auto; lia). reflexivity. }
  apply (H (length bs)). lia.
Qed.

(** ** [str.split] *)

Lemma partition_at_app (sep : N) (a b : pystr) :
  ~ In sep a -> partition_at sep (a ++ sep :: b) = Some (a, b).
Proof.
  induction a as [|c a IH]; intros Hn; cbn [app partition_at].
  - now rewrite N.eqb_refl.
  - destruct (N.eqb_spec c sep) as [->|_]; [exfalso; apply Hn; now left|].
    rewrite IH; [reflexivity|]. intros H. apply Hn. now right.
Qed.

Lemma partition_at_none (sep : N) (s : pystr) :
  partition_at sep s = None <-> count_occ N.eq_dec s sep = 0%nat.
Proof.
  induction s as [|c s IH]; cbn [partition_at count_occ]; [tauto|].
  destruct (N.eqb_spec c sep) as [->|Hne].
  - destruct (N.eq_dec sep sep); [|contradiction]. split; discriminate.
  - destruct (N.eq_dec c sep); [contradiction|].
    destruct (partition_at sep s) as [[pre post]|].
    + split; [discriminate|]. intros H. apply IH in H. discriminate.
    + tauto.
Qed.

Lemma partition_at_some (sep : N) (s pre post : pystr) :
  partition_at sep s = Some (pre, post) ->
  s = pre ++ sep :: post /\ ~ In sep pre /\
  count_occ N.eq_dec s sep = S (count_occ N.eq_dec post sep).
Proof.
  revert pre. induction s as [|c s IH]; intros pre; cbn [partition_at];
    [discriminate|].
  destruct (N.eqb_spec c sep) as [->|Hne].
  - intros H; inversion H; subst. cbn [app count_occ].
    destruct (N.eq_dec sep sep); [|contradiction]. auto.
  - destruct (partition_at sep s) as [[pre' post']|]; [|discriminate].
    intros H; inversion H; subst.
    destruct (IH pre' eq_refl) as (E & Hn & Hc). subst s.
    cbn [app count_occ]. destruct (N.eq_dec c sep); [contradiction|].
    repeat split; auto. intros [H1|H1]; [now apply Hne|now apply Hn].
Qed.

(** The text splits into three fields exactly when it holds two separators
    or more. *)
Lemma split2_length (d : pystr) :
  length (split hash 2 d) = 3%nat <-> (2 <= count_occ N.eq_dec d hash)%nat.
Proof.
  cbn [split].
  destruct (partition_at hash d) as [[a r]|] eqn:E1.
  - destruct (partition_at_some _ _ _ _ E1) as (_ & _ & C1).
    destruct (partition_at hash r) as [[b c]|] eqn:E2.
    + destruct (partition_at_some _ _ _ _ E2) as (_ & _ & C2).
      cbn [length]. lia.
    + apply partition_at_none in E2. cbn [length]. lia.
  - apply partition_at_none in E1. cbn [length]. lia.
Qed.

Lemma split2_fields (f1 f2 rest : pystr) :
  ~ In hash f1 -> ~ In hash f2 ->
  split hash 2 (f1 ++ hash :: f2 ++ hash :: rest) = [f1; f2; rest].
Proof.
  intros H1 H2. cbn [split]. now rewrite !partition_at_app.
Qed.

(** ** [int(...)] raises nothing but [ValueError] *)

Lemma py_int_error (s : pystr) (e : exn) :
  py_int s = Raise e -> e = int_error.
Proof.
  unfold py_int.
  repeat match goal with
         | |- context [match ?x with _ => _ end] => destruct x
         end; intros H; inversion H; reflexivity.
Qed.

Lemma unpack3_short {A : Type} (xs : list A) :
  length xs <> 3%nat -> exists msg, unpack3 xs = Raise (ValueError msg).
Proof.
  destruct xs as [|a [|b [|c [|d xs]]]]; cbn; intros H; eauto; lia.
Qed.

(** ** Parsing by server type *)

Lemma parse_front (ppk : DH.DHPublicKey) (d : pystr) :
  parseByServerType ppk d 0 = ([], Ok (Tuple2 ppk d)).
Proof. reflexivity. Qed.

Lemma parse_dead_drop (ppk : DH.DHPublicKey) (cc dd payload : pystr)
  (c d : Z) :
  ~ In hash cc -> ~ In hash dd -> py_int cc = Ok c -> py_int dd = Ok d ->
  parseByServerType ppk (cc ++ hash :: dd ++ hash :: payload) 2 =
  ([], Ok (Tuple4 ppk c d payload)).
Proof.
  intros H1 H2 Hc Hd. unfold parseByServerType, silent.
  cbn [Z.eqb]. rewrite split2_fields by assumption.
  cbn [unpack3 bind]. rewrite Hc, Hd. reflexivity.
Qed.

(** ** [decryptOnionLayer] stops at its second [decode] *)

(** When the five statements before it succeed, the error is the missing
    [decode] attribute of [str]. *)
Lemma decryptOnionLayer_no_decode (k : DH.DHPrivateKey)
  (msgPayload ppk_text payload_text plaintext : pystr)
  (ppk : DH.DHPublicKey) (payload sharedSecret : bytes) (serverType : Z) :
  split hash 1 msgPayload = [ppk_text; payload_text] ->
  deserializePublicKey ppk_text = Ok ppk ->
  encode (PyStr payload_text) = Ok payload ->
  computeSharedSecret k ppk = Ok sharedSecret ->
  decryptMessage sharedSecret payload = Ok plaintext ->
  decryptOnionLayer k msgPayload serverType = ([], Raise no_decode).
Proof.
  intros Hs Hk He Hc Hd. unfold decryptOnionLayer.
  rewrite Hs. cbn [unpack2 bind_io]. rewrite Hk. cbn [bind_io].
  rewrite He. cbn [bind_io]. rewrite Hc. cbn [bind_io].
  rewrite Hd. reflexivity.
Qed.

(** ** The derived secret has 32 octets *)

Lemma add32_lt (a b : N) : SHA256.add32 a b < SHA256.modulus.
Proof. unfold SHA256.add32. apply N.mod_lt. discriminate. Qed.

Lemma compress_ok (s : SHA256.state) (blk : bytes) :
  state_ok (SHA256.compress s blk).
Proof.
  unfold SHA256.compress.
  destruct (fold_left SHA256.step _ s) as [[[[[[[a b] c] d] e] f] g] h].
  destruct s as [[[[[[[a0 b0] c0] d0] e0] f0] g0] h0].
  cbv [state_ok]. repeat split; apply add32_lt.
Qed.

Lemma process_ok (n : nat) :
  forall s bs, state_ok s -> state_ok (SHA256.process n s bs).
Proof.
  induction n as [|n IH]; intros s bs Hs; cbn [SHA256.process];
    [exact Hs|].
  apply IH, compress_ok.
Qed.

Lemma digest_length (msg : bytes) : length (SHA256.digest msg) = 32%nat.
Proof.
  unfold SHA256.digest.
  assert (H : state_ok (SHA256.process (length (SHA256.pad msg) / 64)
                          SHA256.initial (SHA256.pad msg))).
  { apply process_ok. cbv [state_ok SHA256.initial SHA256.modulus].
    repeat split; reflexivity. }
  destruct (SHA256.process _ _ _) as [[[[[[[a b] c] d] e] f] g] h].
  cbv [state_ok] in H. destruct H as (Ha & Hb & Hc & Hd & He & Hf & Hg & Hh).
  repeat rewrite length_app.
  rewrite !be_bytes_length by assumption. reflexivity.
Qed.

Lemma hmac_length (key msg : bytes) : length (HMAC.hmac key msg) = 32%nat.
Proof. unfold HMAC.hmac. apply digest_length. Qed.

Lemma derive_length (salt : option bytes) (info ikm : bytes) :
  length (HKDF.derive 32 salt info ikm) = 32%nat.
Proof.
  unfold HKDF.derive, HKDF.expand.
  change ((32 + HKDF.hash_len - 1) / HKDF.hash_len)%nat with 1%nat.
  cbn [HKDF.expand_blocks]. rewrite app_nil_r.
  rewrite firstn_all2; rewrite hmac_length; [reflexivity|lia].
Qed.

Lemma computeSharedSecret_length (k : DH.DHPrivateKey) (peer : DH.DHPublicKey)
  (s : bytes) :
  computeSharedSecret k peer = Ok s -> length s = 32%nat.
Proof.
  unfold computeSharedSecret.
  destruct (DH.exchange k peer) as [shared|e]; cbn [bind]; [|discriminate].
  intros H; inversion H. apply derive_length.
Qed.

(** ** The sample keys *)

Lemma alice_keys : Sample.alice = (Sample.alice_private, Sample.alice_public).
Proof. vm_compute. reflexivity. Qed.

Lemma bob_keys : Sample.bob = (Sample.bob_private, Sample.bob_public).
Proof. vm_compute. reflexivity. Qed.

Lemma alice_bob_secret :
  computeSharedSecret Sample.alice_private Sample.bob_public
  = Ok Sample.secret.
Proof. vm_compute. reflexivity. Qed.

Lemma bob_alice_secret :
  computeSharedSecret Sample.bob_private Sample.alice_public
  = Ok Sample.secret.
Proof.
  pose proof (computeSharedSecret_symmetric Sample.keyGenerator 65537 65539)
    as H.
  fold Sample.alice in H. fold Sample.bob in H.
  rewrite alice_keys, bob_keys in H. cbn [fst snd] in H.
  rewrite <- H. apply alice_bob_secret.
Qed.

(** ** What [encryptMessage] returns *)

Lemma chars_printable : forallb printable chars = true.
Proof. reflexivity. Qed.

Lemma printable_ascii (m : pystr) : forallb printable m = true -> ascii_text m.
Proof.
  intros H. apply Forall_forall. intros c Hc.
  rewrite forallb_forall in H. specialize (H c Hc).
  unfold printable in H. apply andb_true_iff in H. destruct H as [_ H].
  apply N.leb_le in H. lia.
Qed.

Lemma createCipher_inv (s : bytes) (c : Ciphers.Cipher) :
  createCipher s = Ok c ->
  c = Ciphers.mkCipher (AES.key_expansion s) iv_block.
Proof.
  unfold createCipher, Ciphers.new, Ciphers.algorithms_AES.
  destruct (_ || _); cbn; intros H; inversion H; reflexivity.
Qed.

Lemma encryptMessage_inv (s : bytes) (m : pystr) (c : bytes) :
  encryptMessage s m = Ok c ->
  exists data ps,
    encode (PyStr m) = Ok data /\
    AES.blocks_of_bytes (PKCS7.pad data) = Some ps /\
    c = AES.bytes_of_blocks
          (Ciphers.cbc_encrypt (AES.key_expansion s) iv_block ps).
Proof.
  unfold encryptMessage.
  destruct (encode (PyStr m)) as [data|]; cbn [bind]; [|discriminate].
  destruct (createCipher s) as [ci|] eqn:Ec; cbn [bind]; [|discriminate].
  apply createCipher_inv in Ec. subst ci.
  unfold Ciphers.encrypt. cbn [Ciphers.round_keys Ciphers.iv].
  destruct (AES.blocks_of_bytes (PKCS7.pad data)) as [ps|] eqn:Eb;
    cbn [bind]; [|discriminate].
  intros H; inversion H. exists data, ps. repeat split; auto.
Qed.

(** ** The sample layer

    What the sample sender builds and what the sample receiver makes of
    it, for every server type. *)
Lemma sample_pem : serializePublicKey Sample.alice_public = Ok Sample.pem.
Proof. vm_compute. reflexivity. Qed.

Lemma sample_text :
  encryptOnionLayer Sample.alice_private Sample.bob_public Sample.payload
  = Ok Sample.text.
Proof.
  unfold encryptOnionLayer. rewrite alice_bob_secret. cbn [bind].
  vm_compute. reflexivity.
Qed.

Lemma sample_layer (serverType : Z) :
  decryptOnionLayer Sample.bob_private Sample.layer serverType
  = ([], Raise no_decode).
Proof.
  eapply decryptOnionLayer_no_decode.
  - vm_compute. reflexivity.
  - vm_compute. reflexivity.
  - vm_compute. reflexivity.
  - apply bob_alice_secret.
  - vm_compute. reflexivity.
Qed.

Lemma sample_failure :
  encryptOnionLayer Sample.alice_private Sample.bob_public
    (str "hello#world") = Raise UnicodeDecodeError.
Proof.
  unfold encryptOnionLayer. rewrite alice_bob_secret. cbn [bind].
  vm_compute. reflexivity.
Qed.

(** ** What an onion layer goes through on the receiving side *)

(** Decryption undoes encryption, for any secret and any text. *)
Lemma decryptMessage_encryptMessage_any (s : bytes) (m : pystr) (c : bytes) :
  encryptMessage s m = Ok c -> decryptMessage s c = Ok m.
Proof.
  apply decryptMessage_encryptMessage. intros data Hd.
  cbn [encode] in Hd. cbn [decode]. now apply utf8_decode_encode.
Qed.

Lemma split1_layer (pem text : pystr) :
  ~ In hash pem -> split hash 1 (pem ++ hash :: text) = [pem; text].
Proof. intros H. cbn [split]. now rewrite partition_at_app. Qed.

Lemma encryptOnionLayer_inv (k : DH.DHPrivateKey) (peer : DH.DHPublicKey)
  (payload text : pystr) :
  encryptOnionLayer k peer payload = Ok text ->
  exists s c,
    computeSharedSecret k peer = Ok s /\
    encryptMessage s payload = Ok c /\
    utf8_decode c = Ok text.
Proof.
  unfold encryptOnionLayer.
  destruct (computeSharedSecret k peer) as [s|]; cbn [bind]; [|discriminate].
  destruct (encryptMessage s payload) as [c|] eqn:Ec; cbn [bind];
    [|discriminate].
  cbn [decode]. intros H. exists s, c. auto.
Qed.

(** Whenever the sender's [encryptOnionLayer] returns, the receiver gets the
    sender's key back, derives the same secret and decrypts the payload;
    then [decryptOnionLayer] raises on its second [decode], whatever the
    server type. *)
Lemma receiver_stops_after_decrypting (ps : DH.DHParameters) (xa xb : N)
  (payload text : pystr) :
  DH.p ps <> 0 -> N.size (DH.p ps) <= 10000 -> N.size (DH.g ps) <= 10000 ->
  encryptOnionLayer (fst (generateKeys ps xa)) (snd (generateKeys ps xb))
    payload = Ok text ->
  exists pem data s,
    serializePublicKey (snd (generateKeys ps xa)) = Ok pem /\
    deserializePublicKey pem = Ok (snd (generateKeys ps xa)) /\
    encode (PyStr text) = Ok data /\
    computeSharedSecret (fst (generateKeys ps xb)) (snd (generateKeys ps xa))
      = Ok s /\
    decryptMessage s data = Ok payload /\
    forall serverType,
      decryptOnionLayer (fst (generateKeys ps xb)) (pem ++ hash :: text)
        serverType = ([], Raise no_decode).
Proof.
  intros Hz Hp Hg Henc.
  destruct (encryptOnionLayer_inv _ _ _ _ Henc) as (s & c & Hs & Hc & Ht).
  destruct (deserialize_serialize (snd (generateKeys ps xa)))
    as (pem & Hpem & Hkey).
  { now apply size_bounded. }
  { now apply size_bounded. }
  { apply generated_key_bounded; [exact Hz|now apply size_bounded]. }
  assert (Hdata : encode (PyStr text) = Ok c)
    by (cbn [encode]; now apply utf8_encode_decode).
  assert (Hs' : computeSharedSecret (fst (generateKeys ps xb))
                  (snd (generateKeys ps xa)) = Ok s)
    by (now rewrite <- computeSharedSecret_symmetric).
  assert (Hplain : decryptMessage s c = Ok payload)
    by (now apply decryptMessage_encryptMessage_any).
  exists pem, c, s. repeat split; try assumption.
  intros serverType.
  eapply decryptOnionLayer_no_decode; eauto.
  apply split1_layer. eapply serialized_no_hash, Hpem.
Qed.

(* ================================================================== *)
(** * Part V. The properties claimed by the specification              *)
(* ================================================================== *)

(** C1 (onion round trip per role) at a concrete input.  Alice wraps
    ["hello 50591"] for Bob with [encryptOnionLayer], which returns here;
    the layer is her serialised public key, ['#'] and the text returned.
    Bob's [decryptOnionLayer] does not give back her key and the payload: for
    every server type it raises the [AttributeError] of line 107, where
    [decode] is called on the text that [decryptMessage] returned. *)
Theorem onion_round_trip_stops_at_decode :
  serializePublicKey (snd Sample.alice) = Ok Sample.pem /\
  encryptOnionLayer (fst Sample.alice) (snd Sample.bob) Sample.payload
    = Ok Sample.text /\
  (forall serverType,
      decryptOnionLayer (fst Sample.bob) Sample.layer serverType
      = ([], Raise no_decode)) /\
  decryptOnionLayer (fst Sample.bob) Sample.layer 0
    <> ([], Ok (Tuple2 (snd Sample.alice) Sample.payload)).
Proof.
  rewrite alice_keys, bob_keys. cbn [fst snd].
  split; [exact sample_pem|]. split; [exact sample_text|].
  split; [exact sample_layer|]. rewrite sample_layer. discriminate.
Qed.


(** C3 (symmetric-cipher round trip).  For every 32-octet secret and every
    text of 1 to 1000 printable ASCII characters (the alphabet of
    [createRandomMessage] is among them), [encryptMessage] returns a
    ciphertext and [decryptMessage] turns it back into the text. *)
Theorem symmetric_cipher_round_trip (s : bytes) (m : pystr) :
  length s = 32%nat ->
  forallb printable m = true ->
  (1 <= length m <= 1000)%nat ->
  exists c, encryptMessage s m = Ok c /\ decryptMessage s c = Ok m.
Proof.
  intros Hs Hm _. apply printable_ascii in Hm.
  destruct (encryptMessage_returns s m (map byte_of_N m) Hs) as [c Hc].
  { cbn [encode]. now apply utf8_encode_ascii. }
  exists c. split; [exact Hc|].
  apply decryptMessage_encryptMessage; [|exact Hc].
  intros data Hd. cbn [encode] in Hd.
  rewrite utf8_encode_ascii in Hd by exact Hm. inversion Hd.
  cbn [decode]. now apply utf8_decode_ascii.
Qed.

Lemma symmetric_cipher_round_trip_witness :
  length Sample.secret = 32%nat /\
  forallb printable (str "hello#world") = true /\
  (1 <= length (str "hello#world") <= 1000)%nat /\
  exists c,
    encryptMessage Sample.secret (str "hello#world") = Ok c /\
    decryptMessage Sample.secret c = Ok (str "hello#world").
Proof.
  assert (H1 : length Sample.secret = 32%nat) by reflexivity.
  assert (H2 : forallb printable (str "hello#world") = true) by reflexivity.
  assert (H3 : (1 <= length (str "hello#world") <= 1000)%nat)
    by (vm_compute; lia).
  exact (conj H1 (conj H2 (conj H3
           (symmetric_cipher_round_trip Sample.secret (str "hello#world")
              H1 H2 H3)))).
Defined.

(** C4, as amended.  For a server type other than 0, 1 and 2 the parsing
    stage raises nothing: it prints the line
    [ERROR decryptOnionLayer: serverType must be in {0,1,2}] and yields
    [None]. *)
Theorem invalid_role_prints_and_returns_none (ppk : DH.DHPublicKey)
  (decryptedPayload : pystr) (serverType : Z) :
  serverType <> 0%Z -> serverType <> 1%Z -> serverType <> 2%Z ->
  parseByServerType ppk decryptedPayload serverType
  = ([role_error_line], Ok PyNone).
Proof.
  intros H0 H1 H2. unfold parseByServerType.
  destruct (Z.eqb_spec serverType 0); [contradiction|].
  destruct (Z.eqb_spec serverType 1); [contradiction|].
  destruct (Z.eqb_spec serverType 2); [contradiction|].
  reflexivity.
Qed.

Lemma invalid_role_prints_and_returns_none_witness :
  3%Z <> 0%Z /\ 3%Z <> 1%Z /\ 3%Z <> 2%Z /\
  parseByServerType Sample.alice_public Sample.payload 3
  = ([role_error_line], Ok PyNone).
Proof.
  assert (H0 : 3%Z <> 0%Z) by discriminate.
  assert (H1 : 3%Z <> 1%Z) by discriminate.
  assert (H2 : 3%Z <> 2%Z) by discriminate.
  exact (conj H0 (conj H1 (conj H2
           (invalid_role_prints_and_returns_none Sample.alice_public
              Sample.payload 3 H0 H1 H2)))).
Defined.

(** C4 as stated fails.  With server type 3 the parsing stage does not
    raise: it prints the line and returns [None].  The call as a whole, on
    the sample layer, raises the [AttributeError] of line 107 and prints
    nothing, so no error names the server type there either. *)
Lemma invalid_role_is_not_raised :
  parseByServerType Sample.alice_public Sample.payload 3
  = ([role_error_line], Ok PyNone) /\
  ~ raises (snd (parseByServerType Sample.alice_public Sample.payload 3)) /\
  decryptOnionLayer Sample.bob_private Sample.layer 3 = ([], Raise no_decode).
Proof.
  split; [reflexivity|]. split; [|apply sample_layer].
  intros [e He]. discriminate He.
Qed.





(** C7 (key-serialisation round trip).  For parameters with a non-zero
    modulus of at most 10000 bits and any secret exponent, the public key
    that [generateKeys] returns serialises to a text, the text deserialises
    to a key, and with every private key that key derives what the original
    derives. *)
Theorem key_serialization_round_trip (ps : DH.DHParameters) (secret : N) :
  DH.p ps <> 0 -> N.size (DH.p ps) <= 10000 -> N.size (DH.g ps) <= 10000 ->
  let k := snd (generateKeys ps secret) in
  exists text k',
    serializePublicKey k = Ok text /\
    deserializePublicKey text = Ok k' /\
    forall priv, computeSharedSecret priv k' = computeSharedSecret priv k.
Proof.
  intros Hz Hp Hg k.
  destruct (deserialize_serialize k) as (text & Hs & Hd).
  - now apply size_bounded.
  - now apply size_bounded.
  - apply generated_key_bounded; [exact Hz|now apply size_bounded].
  - exists text, k. auto.
Qed.

Lemma key_serialization_round_trip_witness :
  DH.p Sample.keyGenerator <> 0 /\
  N.size (DH.p Sample.keyGenerator) <= 10000 /\
  N.size (DH.g Sample.keyGenerator) <= 10000 /\
  let k := snd (generateKeys Sample.keyGenerator 65537) in
  exists text k',
    serializePublicKey k = Ok text /\
    deserializePublicKey text = Ok k' /\
    forall priv, computeSharedSecret priv k' = computeSharedSecret priv k.
Proof.
  assert (H1 : DH.p Sample.keyGenerator <> 0) by discriminate.
  assert (H2 : N.size (DH.p Sample.keyGenerator) <= 10000)
    by (vm_compute; discriminate).
  assert (H3 : N.size (DH.g Sample.keyGenerator) <= 10000)
    by (vm_compute; discriminate).
  exact (conj H1 (conj H2 (conj H3
           (key_serialization_round_trip Sample.keyGenerator 65537
              H1 H2 H3)))).
Defined.



(** C9.  [decryptOnionLayer] returns for no input: whatever the private
    key, the layer and the server type, it prints nothing and raises.  When
    the statements up to [decryptMessage] succeed, the exception is the
    [AttributeError] of the [decode] applied to a [str]
    ([decryptOnionLayer_no_decode]); the parsing by server type is never
    reached. *)
Theorem decryptOnionLayer_never_returns (serverPrivateKey : DH.DHPrivateKey)
  (msgPayload : pystr) (serverType : Z) :
  exists e,
    decryptOnionLayer serverPrivateKey msgPayload serverType = ([], Raise e).
Proof.
  unfold decryptOnionLayer.
  destruct (unpack2 (split hash 1 msgPayload)) as [[ppk payload]|e];
    cbn [bind_io]; [|eauto].
  destruct (deserializePublicKey ppk) as [key|e]; cbn [bind_io]; [|eauto].
  destruct (encode (PyStr payload)) as [data|e]; cbn [bind_io]; [|eauto].
  destruct (computeSharedSecret serverPrivateKey key) as [s|e];
    cbn [bind_io]; [|eauto].
  destruct (decryptMessage s data) as [plain|e]; cbn [bind_io]; [|eauto].
  cbn [decode bind_io]. eauto.
Qed.

(** C10.  [encryptOnionLayer] is partial: under one and the same pair of
    generated key pairs it raises [UnicodeDecodeError] for the payload
    ["hello#world"], whose ciphertext is not UTF-8, and returns a text for
    the payload ["hello 50591"]. *)
Theorem encryptOnionLayer_partial :
  exists prime xa xb payload payload' text,
    let A := generateKeys (createKeyGenerator prime) xa in
    let B := generateKeys (createKeyGenerator prime) xb in
    encryptOnionLayer (fst A) (snd B) payload = Raise UnicodeDecodeError /\
    encryptOnionLayer (fst A) (snd B) payload' = Ok text.
Proof.
  exists Sample.prime, 65537, 65539, (str "hello#world"), Sample.payload,
    Sample.text.
  change (generateKeys (createKeyGenerator Sample.prime) 65537)
    with Sample.alice.
  change (generateKeys (createKeyGenerator Sample.prime) 65539)
    with Sample.bob.
  cbv zeta. rewrite alice_keys, bob_keys. cbn [fst snd].
  split; [apply sample_failure|apply sample_text].
Qed.

(* ================================================================== *)
(** * Part VI. Further properties of the module                        *)
(* ================================================================== *)

(** ** Random messages *)

Lemma chars_length : length chars = 68%nat.
Proof. reflexivity. Qed.

Lemma createRandomMessage_chars (size : nat) (choice : nat -> nat) :
  Forall (fun c => In c chars) (createRandomMessage size choice).
Proof.
  unfold createRandomMessage. apply Forall_forall. intros c Hc.
  apply in_map_iff in Hc. destruct Hc as (i & <- & _).
  apply nth_In. rewrite chars_length. apply Nat.mod_upper_bound. discriminate.
Qed.

Lemma chars_member_printable (c : N) : In c chars -> printable c = true.
Proof.
  pose proof chars_printable as H. rewrite forallb_forall in H. apply H.
Qed.

Lemma createRandomMessage_ascii (size : nat) (choice : nat -> nat) :
  ascii_text (createRandomMessage size choice).
Proof.
  apply printable_ascii, forallb_forall. intros c Hc.
  apply chars_member_printable.
  pose proof (createRandomMessage_chars size choice) as F.
  rewrite Forall_forall in F. now apply F.
Qed.

(** ** Lengths of ciphertexts *)

Lemma bytes_of_blocks_length (l : list AES.block) :
  length (AES.bytes_of_blocks l) = (16 * length l)%nat.
Proof.
  unfold AES.bytes_of_blocks. induction l as [|b l IH]; [reflexivity|].
  cbn [map concat]. rewrite length_app, IH.
  destruct b as [[[[[[a0 a1] a2] a3] [[[b0 b1] b2] b3]] [[[c0 c1] c2] c3]]
                 [[[d0 d1] d2] d3]].
  cbn [AES.bytes_of_block AES.bytes_of_word app length]. lia.
Qed.

Lemma blocks_of_bytes_length (bs : bytes) (l : list AES.block) :
  AES.blocks_of_bytes bs = Some l -> length bs = (16 * length l)%nat.
Proof.
  intros H. apply blocks_of_bytes_inv in H. subst bs.
  apply bytes_of_blocks_length.
Qed.

Lemma blocks_of_bytes_none (bs : bytes) :
  (length bs mod 16 <> 0)%nat -> AES.blocks_of_bytes bs = None.
Proof.
  intros H. destruct (AES.blocks_of_bytes bs) as [l|] eqn:E; [|reflexivity].
  apply blocks_of_bytes_length in E. rewrite E in H.
  rewrite Nat.mul_comm, Nat.Div0.mod_mul in H. contradiction.
Qed.

Lemma cbc_encrypt_length (ks : list AES.block) (ps : list AES.block) :
  forall prev, length (Ciphers.cbc_encrypt ks prev ps) = length ps.
Proof.
  induction ps as [|p ps IH]; intros prev; cbn; [reflexivity|].
  now rewrite IH.
Qed.

(** ** What the codec and the parsing stage can raise *)

Lemma utf8_decode_error (bs : bytes) (e : exn) :
  utf8_decode bs = Raise e -> e = UnicodeDecodeError.
Proof.
  assert (H : forall n bs, (length bs <= n)%nat ->
            forall e, utf8_decode bs = Raise e -> e = UnicodeDecodeError).
  { clear bs e. induction n as [|n IH]; intros bs Hn e H.
    - destruct bs; [discriminate H|cbn in Hn; lia].
    - destruct bs as [|b0 r0]; [discriminate H|].
      cbn [utf8_decode] in H. cbv zeta in H. cbn [length] in Hn.
      repeat match type of H with
             | (if ?c then _ else _) = _ => destruct c
             | match ?r with [] => _ | _ :: _ => _ end = _ =>
                 destruct r; cbn [length] in Hn
             | bind (utf8_decode ?r) _ = _ =>
                 let E := fresh "E" in
                 destruct (utf8_decode r) eqn:E; cbn [bind] in H;
                 [discriminate H|apply IH in E; [|lia]; subst]
             end;
      try discriminate H; try (now inversion H). }
  apply (H (length bs)). lia.
Qed.

Lemma unpack3_inv {A : Type} (xs : list A) (a b c : A) :
  unpack3 xs = Ok (a, b, c) -> xs = [a; b; c].
Proof.
  destruct xs as [|x [|y [|z [|w xs]]]]; cbn; intros H; inversion H.
  reflexivity.
Qed.

Lemma split2_inv (d f1 f2 f3 : pystr) :
  split hash 2 d = [f1; f2; f3] ->
  d = f1 ++ hash :: f2 ++ hash :: f3 /\ ~ In hash f1 /\ ~ In hash f2.
Proof.
  cbn [split].
  destruct (partition_at hash d) as [[a r]|] eqn:E1; [|discriminate].
  destruct (partition_at hash r) as [[b c]|] eqn:E2; [|discriminate].
  intros H. inversion H; subst.
  destruct (partition_at_some _ _ _ _ E1) as (-> & Ha & _).
  destruct (partition_at_some _ _ _ _ E2) as (-> & Hb & _).
  auto.
Qed.

(** ** The first block under the fixed initialisation vector *)

Lemma pad_after_block (front rest : bytes) :
  length front = 16%nat -> PKCS7.pad (front ++ rest) = front ++ PKCS7.pad rest.
Proof.
  intros H. unfold PKCS7.pad, PKCS7.block_len.
  rewrite length_app, H, <- app_assoc.
  replace ((16 + length rest) mod 16)%nat with (length rest mod 16)%nat;
    [reflexivity|].
  rewrite <- Nat.Div0.add_mod_idemp_l. reflexivity.
Qed.

Lemma blocks_of_bytes_front (front rest : bytes) (ps : list AES.block) :
  length front = 16%nat ->
  AES.blocks_of_bytes (front ++ rest) = Some ps ->
  exists b tl, AES.blocks_of_bytes front = Some [b] /\ ps = b :: tl.
Proof.
  intros H.
  do 16 (destruct front as [|? front]; [discriminate H|]).
  destruct front; [|discriminate H].
  cbn. destruct (AES.blocks_of_bytes rest); [|discriminate].
  intros E. inversion E. eauto.
Qed.

Lemma firstn_16_bytes_of_blocks (b : AES.block) (tl : list AES.block) :
  firstn 16 (AES.bytes_of_blocks (b :: tl)) = AES.bytes_of_block b.
Proof.
  unfold AES.bytes_of_blocks. cbn [map concat].
  destruct b as [[[[[[a0 a1] a2] a3] [[[b0 b1] b2] b3]] [[[c0 c1] c2] c3]]
                 [[[d0 d1] d2] d3]].
  reflexivity.
Qed.

(** ** The statements of a test *)

Lemma test_bind_ok {A B : Type} (m : test A) (k : A -> test B)
  (c c' : cursor) (a : A) :
  m c = ([], Ok (a, c')) -> test_bind m k c = k a c'.
Proof.
  intros H. unfold test_bind. rewrite H. now destruct (k a c').
Qed.

Lemma test_lift_ok {A B : Type} (r : result A) (a : A) (k : A -> test B)
  (c : cursor) :
  r = Ok a -> test_bind (test_lift r) k c = k a c.
Proof. intros ->. now apply test_bind_ok. Qed.

(** A loop whose body, entered with [false], prints nothing and gives
    [false] back, does the same as a whole. *)
Lemma for_range_quiet (body : bool -> test bool) (n : nat) :
  (forall c, exists c', body false c = ([], Ok (false, c'))) ->
  forall c, exists c', for_range n body false c = ([], Ok (false, c')).
Proof.
  intros Hb. induction n as [|n IH]; intros c; cbn [for_range].
  - now exists c.
  - destruct (Hb c) as [c1 H1]. rewrite (test_bind_ok _ _ _ _ _ H1).
    apply IH.
Qed.

Lemma bytes_ne_refl (a : bytes) : bytes_ne a a = false.
Proof. unfold bytes_ne. now destruct (list_eq_dec Byte.byte_eq_dec a a). Qed.

Lemma str_ne_refl (a : pystr) : str_ne a a = false.
Proof. unfold str_ne. now destruct (list_eq_dec N.eq_dec a a). Qed.

(** One party encrypts for the other, who decrypts. *)
Lemma exchange_round_trip (ps : DH.DHParameters) (xa xb : N) (m : pystr)
  (data : bytes) :
  encode (PyStr m) = Ok data ->
  exists s c,
    computeSharedSecret (fst (generateKeys ps xa)) (snd (generateKeys ps xb))
      = Ok s /\
    encryptMessage s m = Ok c /\
    computeSharedSecret (fst (generateKeys ps xb)) (snd (generateKeys ps xa))
      = Ok s /\
    decryptMessage s c = Ok m.
Proof.
  intros Hm.
  destruct (computeSharedSecret_returns ps xa xb) as [s Hs].
  pose proof (computeSharedSecret_length _ _ _ Hs) as Hlen.
  destruct (encryptMessage_returns s m data Hlen Hm) as [c Hc].
  exists s, c. split; [exact Hs|]. split; [exact Hc|].
  split; [now rewrite <- computeSharedSecret_symmetric|].
  now apply decryptMessage_encryptMessage_any.
Qed.

Lemma createRandomMessage_encodes (size : nat) (choice : nat -> nat) :
  encode (PyStr (createRandomMessage size choice))
  = Ok (map byte_of_N (createRandomMessage size choice)).
Proof. cbn [encode]. apply utf8_encode_ascii, createRandomMessage_ascii. Qed.

Lemma testEncryption_body_quiet (e : entropy) (ps : DH.DHParameters)
  (xa xb : N) (a_priv b_priv : DH.DHPrivateKey) (a_pub b_pub : DH.DHPublicKey)
  (c : cursor) :
  generateKeys ps xa = (a_priv, a_pub) ->
  generateKeys ps xb = (b_priv, b_pub) ->
  exists c',
    testEncryption_body e a_priv a_pub b_priv b_pub false c
    = ([], Ok (false, c')).
Proof.
  intros Ea Eb. unfold testEncryption_body.
  rewrite (test_bind_ok _ _ c _ _ eq_refl).
  match goal with
  | |- context [drawMessage e ?size] => set (sz := size)
  end.
  rewrite (test_bind_ok (drawMessage e sz) _ _ _ _ eq_refl).
  set (msg := createRandomMessage sz _).
  destruct (exchange_round_trip ps xa xb msg _
              (createRandomMessage_encodes _ _))
    as (s & ct & H1 & H2 & H3 & H4).
  rewrite Ea, Eb in H1, H3. cbn [fst snd] in H1, H3.
  rewrite (test_lift_ok _ _ _ _ H1), (test_lift_ok _ _ _ _ H2),
    (test_lift_ok _ _ _ _ H3), (test_lift_ok _ _ _ _ H4).
  rewrite bytes_ne_refl, str_ne_refl. cbn [orb]. unfold test_ret. eauto.
Qed.

Lemma testKeySerialization_body_quiet (e : entropy) (ps : DH.DHParameters)
  (c : cursor) :
  DH.p ps <> 0 -> N.size (DH.p ps) <= 10000 -> N.size (DH.g ps) <= 10000 ->
  exists c', testKeySerialization_body e ps false c = ([], Ok (false, c')).
Proof.
  intros Hz Hp Hg. unfold testKeySerialization_body.
  rewrite (test_bind_ok _ _ c _ _ eq_refl).
  match goal with
  | |- context [drawMessage e ?size] => set (sz := size)
  end.
  rewrite (test_bind_ok (drawMessage e sz) _ _ _ _ eq_refl).
  set (msg := createRandomMessage sz _).
  rewrite (test_bind_ok (drawKeys e ps) _ _ _ _ eq_refl).
  cbn [random_pos key_pos]. cbv beta.
  set (xa := key_tape e (key_pos c)).
  destruct (generateKeys ps xa) as [a_priv a_pub] eqn:Ea. cbv iota.
  rewrite (test_bind_ok (drawKeys e ps) _ _ _ _ eq_refl).
  cbn [random_pos key_pos]. cbv beta.
  set (xb := key_tape e (S (key_pos c))).
  destruct (generateKeys ps xb) as [b_priv b_pub] eqn:Eb. cbv iota.
  destruct (exchange_round_trip ps xa xb msg _
              (createRandomMessage_encodes _ _))
    as (s & ct & H1 & H2 & _ & H4).
  rewrite Ea, Eb in H1. cbn [fst snd] in H1.
  assert (Hb : b_pub = snd (generateKeys ps xb)) by now rewrite Eb.
  destruct (deserialize_serialize b_pub) as (text & Hs & Hd).
  { rewrite Hb. now apply size_bounded. }
  { rewrite Hb. now apply size_bounded. }
  { rewrite Hb. apply generated_key_bounded; [exact Hz|now apply size_bounded]. }
  rewrite (test_lift_ok _ _ _ _ H1), (test_lift_ok _ _ _ _ H2),
    (test_lift_ok _ _ _ _ Hs), (test_lift_ok _ _ _ _ Hd),
    (test_lift_ok _ _ _ _ H1), (test_lift_ok _ _ _ _ H4).
  rewrite str_ne_refl. unfold test_ret. eauto.
Qed.

Lemma unpack3_error {A : Type} (xs : list A) (e : exn) :
  unpack3 xs = Raise e -> exists msg, e = ValueError msg.
Proof.
  destruct xs as [|x [|y [|z [|w xs]]]]; cbn; intros H; inversion H; eauto.
Qed.

Lemma not_in_hash_count (s : pystr) :
  ~ In hash s <-> count_occ N.eq_dec s hash = 0%nat.
Proof. apply count_occ_not_In. Qed.

(** The text up to the first [#] of a text that has one. *)
Lemma first_field (s : pystr) :
  In hash s -> exists pre post, s = pre ++ hash :: post /\ ~ In hash pre.
Proof.
  intros H. destruct (partition_at hash s) as [[pre post]|] eqn:E.
  - apply partition_at_some in E. destruct E as (-> & Hp & _). eauto.
  - apply partition_at_none, not_in_hash_count in E. contradiction.
Qed.

Lemma hello_encrypted :
  encryptMessage Sample.secret (str "hello") = Ok Sample.hello_ciphertext.
Proof. vm_compute. reflexivity. Qed.

(** ** Properties of the functions *)

(** X1 ([createRandomMessage], lines 16-18).  A random message has exactly
    the requested length, and each of its characters is drawn from [chars]:
    it is printable ASCII and never the separator [#] of the onion layers. *)
Theorem createRandomMessage_alphabet (messageSize : nat)
  (choice : nat -> nat) :
  length (createRandomMessage messageSize choice) = messageSize /\
  Forall (fun c => In c chars /\ printable c = true /\ c <> hash)
    (createRandomMessage messageSize choice).
Proof.
  split.
  - unfold createRandomMessage. now rewrite length_map, length_seq.
  - eapply Forall_impl; [|apply createRandomMessage_chars].
    intros c Hc. split; [exact Hc|].
    split; [now apply chars_member_printable|].
    assert (H : forallb (fun c => negb (c =? hash)) chars = true)
      by reflexivity.
    rewrite forallb_forall in H. apply H in Hc.
    intros ->. now rewrite N.eqb_refl in Hc.
Qed.

(** X2 ([encryptMessage], lines 53-60).  A ciphertext is the UTF-8 encoding
    of the message filled up to the next multiple of 16 octets, a whole
    block being added when the encoding already ends on a block: its
    length is [16 * (len / 16 + 1)], never zero and never the length of
    the encoding. *)
Theorem encryptMessage_length (shared_secret : bytes) (msg : pystr)
  (data c : bytes) :
  encode (PyStr msg) = Ok data ->
  encryptMessage shared_secret msg = Ok c ->
  length c = (16 * (length data / 16 + 1))%nat /\
  (length data < length c <= length data + 16)%nat.
Proof.
  intros Hd Hc.
  destruct (encryptMessage_inv _ _ _ Hc) as (data' & ps & Hd' & Hps & ->).
  rewrite Hd in Hd'. apply Ok_inj in Hd'. subst data'.
  rewrite bytes_of_blocks_length, cbc_encrypt_length.
  rewrite <- (blocks_of_bytes_length _ _ Hps), pad_length.
  split; [reflexivity|].
  pose proof (Nat.div_mod_eq (length data) 16) as E.
  pose proof (Nat.mod_upper_bound (length data) 16) as B. lia.
Qed.

Lemma encryptMessage_length_witness :
  encode (PyStr (str "hello")) = Ok (map byte_of_N (str "hello")) /\
  encryptMessage Sample.secret (str "hello") = Ok Sample.hello_ciphertext /\
  length Sample.hello_ciphertext
  = (16 * (length (map byte_of_N (str "hello")) / 16 + 1))%nat /\
  (length (map byte_of_N (str "hello")) < length Sample.hello_ciphertext
   <= length (map byte_of_N (str "hello")) + 16)%nat.
Proof.
  assert (H1 : encode (PyStr (str "hello"))
               = Ok (map byte_of_N (str "hello"))) by reflexivity.
  exact (conj H1 (conj hello_encrypted
           (encryptMessage_length Sample.secret (str "hello") _
              Sample.hello_ciphertext H1 hello_encrypted))).
Defined.

(** X3 ([encryptMessage], lines 53-60).  Under one secret two different
    messages never have the same ciphertext. *)
Theorem encryptMessage_injective (shared_secret : bytes) (msg1 msg2 : pystr)
  (c : bytes) :
  encryptMessage shared_secret msg1 = Ok c ->
  encryptMessage shared_secret msg2 = Ok c ->
  msg1 = msg2.
Proof.
  intros H1 H2. apply decryptMessage_encryptMessage_any in H1, H2.
  rewrite H1 in H2. now apply Ok_inj in H2.
Qed.

Lemma encryptMessage_injective_witness :
  encryptMessage Sample.secret (str "hello") = Ok Sample.hello_ciphertext /\
  str "hello" = str "hello".
Proof.
  exact (conj hello_encrypted
           (encryptMessage_injective Sample.secret (str "hello")
              (str "hello") Sample.hello_ciphertext
              hello_encrypted hello_encrypted)).
Defined.

(** X4 ([decryptMessage], lines 65-73).  A ciphertext that is empty, or
    whose length is not a multiple of 16 octets, is refused with a
    [ValueError]: by the decryptor when a block is incomplete, by the
    unpadder when there is no block at all. *)
Theorem decryptMessage_rejects_length (shared_secret msg : bytes) :
  length shared_secret = 32%nat ->
  msg = [] \/ (length msg mod 16 <> 0)%nat ->
  exists text, decryptMessage shared_secret msg = Raise (ValueError text).
Proof.
  intros Hs Hc. unfold decryptMessage. rewrite (createCipher_32 _ Hs).
  cbn [bind]. unfold Ciphers.decrypt. destruct Hc as [-> | Hc].
  - cbn [AES.blocks_of_bytes Ciphers.cbc_decrypt AES.bytes_of_blocks map
         concat bind]. eexists. reflexivity.
  - rewrite (blocks_of_bytes_none _ Hc). eexists. reflexivity.
Qed.

Lemma decryptMessage_rejects_length_witness :
  length Sample.secret = 32%nat /\
  (bytes_literal "hello" = [] \/
   (length (bytes_literal "hello") mod 16 <> 0)%nat) /\
  exists text,
    decryptMessage Sample.secret (bytes_literal "hello")
    = Raise (ValueError text).
Proof.
  assert (H1 : length Sample.secret = 32%nat) by reflexivity.
  assert (H2 : bytes_literal "hello" = [] \/
               (length (bytes_literal "hello") mod 16 <> 0)%nat)
    by (right; discriminate).
  exact (conj H1 (conj H2
           (decryptMessage_rejects_length Sample.secret
              (bytes_literal "hello") H1 H2))).
Defined.

(** X5 ([generateKeys], [computeSharedSecret], [encryptMessage],
    [decryptMessage], lines 32-73).  What one party encrypts under the
    secret it derives from its private key and the other party's public
    key, the other party decrypts under the secret it derives the other way
    round. *)
Theorem peer_decrypts_message (keyGenerator : DH.DHParameters) (xa xb : N)
  (msg : pystr) (a_shared_secret c : bytes) :
  computeSharedSecret (fst (generateKeys keyGenerator xa))
    (snd (generateKeys keyGenerator xb)) = Ok a_shared_secret ->
  encryptMessage a_shared_secret msg = Ok c ->
  exists b_shared_secret,
    computeSharedSecret (fst (generateKeys keyGenerator xb))
      (snd (generateKeys keyGenerator xa)) = Ok b_shared_secret /\
    decryptMessage b_shared_secret c = Ok msg.
Proof.
  intros Hs Hc. exists a_shared_secret.
  split; [now rewrite <- computeSharedSecret_symmetric|].
  now apply decryptMessage_encryptMessage_any.
Qed.

Lemma peer_decrypts_message_witness :
  computeSharedSecret (fst Sample.alice) (snd Sample.bob) = Ok Sample.secret /\
  encryptMessage Sample.secret (str "hello") = Ok Sample.hello_ciphertext /\
  exists b_shared_secret,
    computeSharedSecret (fst Sample.bob) (snd Sample.alice)
    = Ok b_shared_secret /\
    decryptMessage b_shared_secret Sample.hello_ciphertext = Ok (str "hello").
Proof.
  assert (H : computeSharedSecret (fst Sample.alice) (snd Sample.bob)
              = Ok Sample.secret).
  { rewrite alice_keys, bob_keys. exact alice_bob_secret. }
  exact (conj H (conj hello_encrypted
           (peer_decrypts_message Sample.keyGenerator 65537 65539
              (str "hello") Sample.secret Sample.hello_ciphertext
              H hello_encrypted))).
Defined.




(** X8 ([serializePublicKey], lines 76-80; [decryptOnionLayer], line 103).
    A serialized public key holds no [#].  So a layer made of a serialized
    key, a [#] and any payload is split by line 103 into exactly that key
    and that payload, also when the payload has [#] characters of its
    own. *)
Theorem layer_framing (public_key : DH.DHPublicKey) (payload : pystr) :
  exists pem,
    serializePublicKey public_key = Ok pem /\
    unpack2 (split hash 1 (pem ++ hash :: payload)) = Ok (pem, payload).
Proof.
  exists (map N_of_byte (PEM.public_bytes public_key)).
  pose proof (serializePublicKey_text public_key) as H.
  split; [exact H|].
  rewrite split1_layer; [reflexivity|].
  exact (serialized_no_hash _ _ H).
Qed.

(** X9 ([decryptOnionLayer], line 103).  A layer without any [#] is refused
    at the first line: the two-way unpacking raises [ValueError], before
    any key is read, and nothing is printed. *)
Theorem layer_without_separator (serverPrivateKey : DH.DHPrivateKey)
  (msgPayload : pystr) (serverType : Z) :
  ~ In hash msgPayload ->
  exists text,
    decryptOnionLayer serverPrivateKey msgPayload serverType
    = ([], Raise (ValueError text)).
Proof.
  intros H. apply not_in_hash_count, partition_at_none in H.
  unfold decryptOnionLayer. cbn [split]. rewrite H.
  eexists. reflexivity.
Qed.

Lemma layer_without_separator_witness :
  ~ In hash (str "hello") /\
  exists text,
    decryptOnionLayer Sample.bob_private (str "hello") 0
    = ([], Raise (ValueError text)).
Proof.
  assert (H : ~ In hash (str "hello")).
  { apply not_in_hash_count. reflexivity. }
  exact (conj H
           (layer_without_separator Sample.bob_private (str "hello") 0 H)).
Defined.

(** X10 ([encryptOnionLayer], lines 122-125; [decryptOnionLayer], lines
    103-107).  When the sender's [encryptOnionLayer] returns a text, the
    receiver's lines 103-107, up to the call of [decryptMessage] and run
    on the sender's serialized public key, a [#] and that text, read the
    sender's key back, derive the sender's secret and decrypt exactly the
    payload that was sent. *)
Theorem layer_read_back (keyGenerator : DH.DHParameters) (xa xb : N)
  (msgPayload text : pystr) :
  DH.p keyGenerator <> 0 ->
  N.size (DH.p keyGenerator) <= 10000 ->
  N.size (DH.g keyGenerator) <= 10000 ->
  encryptOnionLayer (fst (generateKeys keyGenerator xa))
    (snd (generateKeys keyGenerator xb)) msgPayload = Ok text ->
  exists pem ppk payload sharedSecret,
    serializePublicKey (snd (generateKeys keyGenerator xa)) = Ok pem /\
    unpack2 (split hash 1 (pem ++ hash :: text)) = Ok (ppk, payload) /\
    deserializePublicKey ppk = Ok (snd (generateKeys keyGenerator xa)) /\
    computeSharedSecret (fst (generateKeys keyGenerator xb))
      (snd (generateKeys keyGenerator xa)) = Ok sharedSecret /\
    (data <- encode (PyStr payload) ;; decryptMessage sharedSecret data)
    = Ok msgPayload.
Proof.
  intros Hz Hp Hg He.
  destruct (receiver_stops_after_decrypting _ _ _ _ _ Hz Hp Hg He)
    as (pem & data & s & H1 & H2 & H3 & H4 & H5 & _).
  exists pem, pem, text, s.
  split; [exact H1|].
  split; [rewrite split1_layer;
          [reflexivity|exact (serialized_no_hash _ _ H1)]|].
  split; [exact H2|]. split; [exact H4|].
  rewrite H3. exact H5.
Qed.

Lemma layer_read_back_witness :
  DH.p Sample.keyGenerator <> 0 /\
  N.size (DH.p Sample.keyGenerator) <= 10000 /\
  N.size (DH.g Sample.keyGenerator) <= 10000 /\
  encryptOnionLayer (fst Sample.alice) (snd Sample.bob) Sample.payload
  = Ok Sample.text /\
  exists pem ppk payload sharedSecret,
    serializePublicKey (snd Sample.alice) = Ok pem /\
    unpack2 (split hash 1 (pem ++ hash :: Sample.text)) = Ok (ppk, payload) /\
    deserializePublicKey ppk = Ok (snd Sample.alice) /\
    computeSharedSecret (fst Sample.bob) (snd Sample.alice)
    = Ok sharedSecret /\
    (data <- encode (PyStr payload) ;; decryptMessage sharedSecret data)
    = Ok Sample.payload.
Proof.
  assert (H1 : DH.p Sample.keyGenerator <> 0) by discriminate.
  assert (H2 : N.size (DH.p Sample.keyGenerator) <= 10000)
    by (vm_compute; discriminate).
  assert (H3 : N.size (DH.g Sample.keyGenerator) <= 10000)
    by (vm_compute; discriminate).
  assert (H4 : encryptOnionLayer (fst Sample.alice) (snd Sample.bob)
                 Sample.payload = Ok Sample.text).
  { rewrite alice_keys, bob_keys. exact sample_text. }
  exact (conj H1 (conj H2 (conj H3 (conj H4
           (layer_read_back Sample.keyGenerator 65537 65539
              Sample.payload Sample.text H1 H2 H3 H4))))).
Defined.

(** X11 ([decryptOnionLayer], lines 115-117).  The DEAD_DROP branch returns
    [(ppk, clientChain, DD, payload)] exactly for a decrypted payload of the
    shape [f1#f2#payload] where [f1] and [f2] hold no [#] and [int] reads
    them as [clientChain] and [DD]: the third field is handed on unchanged,
    with every later [#] in it. *)
Theorem dead_drop_parse (ppk ppk' : DH.DHPublicKey)
  (decryptedPayload payload : pystr) (clientChain DD : Z) :
  parseByServerType ppk decryptedPayload 2
  = ([], Ok (Tuple4 ppk' clientChain DD payload))
  <->
  ppk' = ppk /\
  exists f1 f2,
    decryptedPayload = f1 ++ hash :: f2 ++ hash :: payload /\
    ~ In hash f1 /\ ~ In hash f2 /\
    py_int f1 = Ok clientChain /\ py_int f2 = Ok DD.
Proof.
  unfold parseByServerType, silent. cbn [Z.eqb Pos.eqb]. split.
  - intros H. apply (f_equal snd) in H. cbn [snd] in H.
    destruct (unpack3 (split hash 2 decryptedPayload))
      as [[[f1 f2] f3]|] eqn:E; [|discriminate H].
    apply unpack3_inv, split2_inv in E. destruct E as (E & N1 & N2).
    cbn [bind] in H.
    destruct (py_int f1) as [c|] eqn:E1; [|discriminate H].
    destruct (py_int f2) as [d|] eqn:E2; [|discriminate H].
    cbn [bind] in H. apply Ok_inj in H. inversion H; subst.
    split; [reflexivity|]. exists f1, f2. auto.
  - intros (-> & f1 & f2 & -> & N1 & N2 & E1 & E2).
    rewrite (split2_fields _ _ _ N1 N2). cbn [unpack3 bind].
    rewrite E1, E2. reflexivity.
Qed.

(** X12 ([decryptOnionLayer], lines 111-114).  The SPREADING branch returns
    [(ppk, DDS, payload)] exactly for a decrypted payload of the shape
    [f1#payload] where [f1] holds no [#], [int] reads it as [DDS] and
    [payload] holds at least one [#]: all that follows the first [#] is
    handed on unchanged. *)
Theorem spreading_parse (ppk ppk' : DH.DHPublicKey)
  (decryptedPayload payload : pystr) (DDS : Z) :
  parseByServerType ppk decryptedPayload 1
  = ([], Ok (Tuple3 ppk' DDS payload))
  <->
  ppk' = ppk /\
  exists f1,
    decryptedPayload = f1 ++ hash :: payload /\
    ~ In hash f1 /\ In hash payload /\ py_int f1 = Ok DDS.
Proof.
  unfold parseByServerType, silent. cbn [Z.eqb Pos.eqb]. split.
  - intros H. apply (f_equal snd) in H. cbn [snd] in H.
    destruct (unpack3 (split hash 2 decryptedPayload))
      as [[[f1 f2] f3]|] eqn:E; [|discriminate H].
    apply unpack3_inv, split2_inv in E. destruct E as (E & N1 & N2).
    cbn [bind] in H.
    destruct (py_int f1) as [n|] eqn:E1; [|discriminate H].
    cbn [bind] in H. apply Ok_inj in H. inversion H; subst.
    split; [reflexivity|]. exists f1.
    split; [reflexivity|]. split; [exact N1|]. split; [|exact E1].
    apply in_or_app. right. now left.
  - intros (-> & f1 & -> & N1 & Hin & E1).
    destruct (first_field _ Hin) as (f2 & f3 & -> & N2).
    rewrite (split2_fields _ _ _ N1 N2). cbn [unpack3 bind].
    rewrite E1. reflexivity.
Qed.

(** X13 ([decryptOnionLayer], lines 109-119).  The parsing by server type
    raises nothing but [ValueError], only for the server types 1 and 2, and
    prints nothing when it raises. *)
Theorem parse_raises_only_ValueError (ppk : DH.DHPublicKey)
  (decryptedPayload : pystr) (serverType : Z) (out : list string) (e : exn) :
  parseByServerType ppk decryptedPayload serverType = (out, Raise e) ->
  out = [] /\ (serverType = 1%Z \/ serverType = 2%Z) /\
  exists text, e = ValueError text.
Proof.
  unfold parseByServerType, silent.
  destruct (Z.eqb_spec serverType 0); [discriminate|].
  destruct (Z.eqb_spec serverType 1).
  { intros H. apply pair_equal_spec in H. destruct H as [Ho He].
    split; [now symmetry|]. split; [now left|].
    destruct (unpack3 (split hash 2 decryptedPayload))
      as [[[f1 f2] f3]|] eqn:E; cbn [bind] in He.
    - destruct (py_int f1) eqn:E1; cbn [bind] in He; [discriminate He|].
      apply py_int_error in E1. inversion He; subst.
      unfold int_error. eauto.
    - inversion He; subst. now apply unpack3_error in E. }
  destruct (Z.eqb_spec serverType 2); [|discriminate].
  intros H. apply pair_equal_spec in H. destruct H as [Ho He].
  split; [now symmetry|]. split; [now right|].
  destruct (unpack3 (split hash 2 decryptedPayload))
    as [[[f1 f2] f3]|] eqn:E; cbn [bind] in He.
  - destruct (py_int f1) eqn:E1; cbn [bind] in He.
    + destruct (py_int f2) eqn:E2; cbn [bind] in He; [discriminate He|].
      apply py_int_error in E2. inversion He; subst.
      unfold int_error. eauto.
    + apply py_int_error in E1. inversion He; subst.
      unfold int_error. eauto.
  - inversion He; subst. now apply unpack3_error in E.
Qed.

Lemma parse_raises_only_ValueError_witness :
  parseByServerType Sample.alice_public (str "12#ab#c") 2
  = ([], Raise int_error) /\
  ([] : list string) = [] /\ (2 = 1 \/ 2 = 2)%Z /\
  exists text, int_error = ValueError text.
Proof.
  assert (H : parseByServerType Sample.alice_public (str "12#ab#c") 2
              = ([], Raise int_error)) by reflexivity.
  exact (conj H
           (parse_raises_only_ValueError Sample.alice_public (str "12#ab#c")
              2 [] int_error H)).
Defined.



(** X15 ([createCipher], lines 24-29; [encryptMessage], lines 53-60).  The
    initialisation vector is a constant of the code, so under one secret
    two messages whose encodings start with the same 16 octets have
    ciphertexts that start with the same 16 octets: a ciphertext shows
    which messages share their first block. *)
Theorem fixed_iv_shows_common_prefix (shared_secret : bytes)
  (msg1 msg2 : pystr) (front rest1 rest2 c1 c2 : bytes) :
  length front = 16%nat ->
  encode (PyStr msg1) = Ok (front ++ rest1) ->
  encode (PyStr msg2) = Ok (front ++ rest2) ->
  encryptMessage shared_secret msg1 = Ok c1 ->
  encryptMessage shared_secret msg2 = Ok c2 ->
  firstn 16 c1 = firstn 16 c2.
Proof.
  intros Hf Hd1 Hd2 Hc1 Hc2.
  destruct (encryptMessage_inv _ _ _ Hc1) as (d1 & ps1 & Hd1' & Hp1 & ->).
  destruct (encryptMessage_inv _ _ _ Hc2) as (d2 & ps2 & Hd2' & Hp2 & ->).
  rewrite Hd1 in Hd1'. apply Ok_inj in Hd1'. subst d1.
  rewrite Hd2 in Hd2'. apply Ok_inj in Hd2'. subst d2.
  rewrite (pad_after_block _ rest1 Hf) in Hp1.
  rewrite (pad_after_block _ rest2 Hf) in Hp2.
  destruct (blocks_of_bytes_front _ _ _ Hf Hp1) as (b1 & t1 & Hb1 & ->).
  destruct (blocks_of_bytes_front _ _ _ Hf Hp2) as (b2 & t2 & Hb2 & ->).
  rewrite Hb1 in Hb2. inversion Hb2; subst b2.
  cbn [Ciphers.cbc_encrypt].
  now rewrite !firstn_16_bytes_of_blocks.
Qed.

Lemma fixed_iv_shows_common_prefix_witness :
  exists c1 c2,
    encryptMessage Sample.secret (str "0123456789abcdef, yes") = Ok c1 /\
    encryptMessage Sample.secret (str "0123456789abcdef: no") = Ok c2 /\
    firstn 16 c1 = firstn 16 c2.
Proof.
  assert (Hs : length Sample.secret = 32%nat) by reflexivity.
  assert (Hf : length (bytes_literal "0123456789abcdef") = 16%nat)
    by reflexivity.
  assert (H1 : encode (PyStr (str "0123456789abcdef, yes"))
               = Ok (bytes_literal "0123456789abcdef"
                     ++ bytes_literal ", yes")) by reflexivity.
  assert (H2 : encode (PyStr (str "0123456789abcdef: no"))
               = Ok (bytes_literal "0123456789abcdef"
                     ++ bytes_literal ": no")) by reflexivity.
  destruct (encryptMessage_returns Sample.secret _ _ Hs H1) as [c1 E1].
  destruct (encryptMessage_returns Sample.secret _ _ Hs H2) as [c2 E2].
  exists c1, c2.
  exact (conj E1 (conj E2
           (fixed_iv_shows_common_prefix Sample.secret _ _ _ _ _ c1 c2
              Hf H1 H2 E1 E2))).
Defined.

(** X16 ([createCipher], lines 24-29; [encryptMessage], lines 53-60).
    [encryptMessage] returns exactly when the message can be encoded as
    UTF-8 and the secret has 16, 24 or 32 octets; padding makes every
    encoded message fit the block cipher, whatever its length. *)
Theorem encryptMessage_returns_iff (shared_secret : bytes) (msg : pystr) :
  returns (encryptMessage shared_secret msg) <->
  returns (encode (PyStr msg)) /\
  (length shared_secret = 16 \/ length shared_secret = 24 \/
   length shared_secret = 32)%nat.
Proof.
  unfold encryptMessage, createCipher, Ciphers.new, Ciphers.algorithms_AES.
  split.
  - intros [c H].
    destruct (encode (PyStr msg)) as [data|]; [|discriminate H].
    split; [now exists data|]. cbn [bind] in H.
    destruct (Nat.eqb_spec (length shared_secret) 16); [now left|].
    destruct (Nat.eqb_spec (length shared_secret) 24); [now right; left|].
    destruct (Nat.eqb_spec (length shared_secret) 32); [now right; right|].
    discriminate H.
  - intros [[data ->] Hs]. cbn [bind].
    assert (E : (Nat.eqb (length shared_secret) 16
                 || Nat.eqb (length shared_secret) 24
                 || Nat.eqb (length shared_secret) 32) = true).
    { destruct Hs as [-> | [-> | ->]]; reflexivity. }
    rewrite E. cbn [bind].
    change (Ciphers.modes_CBC iv) with (Ok iv_block). cbn [bind].
    destruct (cipher_encrypt_padded
                (Ciphers.mkCipher (AES.key_expansion shared_secret) iv_block)
                data) as [c Hc].
    rewrite Hc. now exists c.
Qed.
